(** * Spot detection and intensity measurement (starfish, DetectSpots/detect.py)

    A shallow embedding of [measure_spot_intensity], [measure_spot_intensities],
    [concatenate_spot_attributes_to_intensities] and [detect_spots], with the
    pandas / numpy / xarray operations they rely on, and the properties of the
    bounding boxes and of the intensity tensor they build.

    Conventions of the embedding:
    - an int64 column holds mathematical integers ([Z]); the pixel coordinates,
      radii and axis lengths of an image stay far away from 2^63;
    - a float64 value is an exact rational ([Q]) or NaN (the value pandas pads
      a missing cell with); ceiling and truncation are exact on such values;
    - a pandas column is its indexing function together with the row count of
      its frame; a numpy array is its shape together with its indexing function;
    - a Python exception is an [exn] carried by [result]; the objects a function
      mutates are threaded through the state of [St]. *)

From Stdlib Require Import ZArith QArith Qround Qminmax.
From stdpp Require Import gmap strings list sorting.

Local Open Scope Z_scope.

(** ** Exceptions and the state-and-error monad *)

Inductive exn :=
| KeyError (key : string)
| IndexError
| ValueError
| Raised (tag : Z).

Inductive result (A : Type) :=
| Ok (a : A)
| Err (e : exn).
Arguments Ok {A} a.
Arguments Err {A} e.

Definition is_err {A} (r : result A) : Prop :=
  match r with Ok _ => False | Err _ => True end.

Definition rbind {A B} (r : result A) (k : A → result B) : result B :=
  match r with Ok a => k a | Err e => Err e end.

Definition rmap {A B} (f : A → B) (r : result A) : result B :=
  rbind r (λ a, Ok (f a)).

(** A computation over a mutable object of type [S]: the object after the
    computation (also when it raised), and the value or the exception. *)
Definition St (S A : Type) : Type := S → S * result A.

Definition ret {S A} (a : A) : St S A := λ s, (s, Ok a).
Definition bind {S A B} (m : St S A) (k : A → St S B) : St S B :=
  λ s, match m s with
       | (s', Ok a) => k a s'
       | (s', Err e) => (s', Err e)
       end.
Definition lift {S A} (r : result A) : St S A := λ s, (s, r).
Definition get {S} : St S S := λ s, (s, Ok s).
Definition modify {S} (f : S → S) : St S unit := λ s, (f s, Ok tt).

Notation "'let!' x ':=' c 'in' k" := (bind c (λ x, k))
  (at level 10, x pattern, c at level 100, k at level 200).
Notation "c ';;;' k" := (bind c (λ _, k))
  (at level 100, k at level 200, right associativity).

(** [for x in xs: body x] *)
Fixpoint for_each {S A} (xs : list A) (body : A → St S unit) : St S unit :=
  match xs with
  | [] => ret tt
  | x :: xs' => body x ;;; for_each xs' body
  end.

(** [[f x for x in xs]], stopping at the first exception *)
Fixpoint map_result {A B} (f : A → result B) (xs : list A) : result (list B) :=
  match xs with
  | [] => Ok []
  | x :: xs' => rbind (f x) (λ b, rmap (cons b) (map_result f xs'))
  end.

(** ** Numbers *)

Inductive float :=
| Fin (q : Q)
| NaN.

(** Pixel values and intensities are float64 numbers. *)
Definition Number : Type := float.

Definition float_of_int (z : Z) : float := Fin (inject_Z z).

Definition float_map (f : Q → Q) (x : float) : float :=
  match x with Fin q => Fin (f q) | NaN => NaN end.

Definition float_map2 (f : Q → Q → Q) (x y : float) : float :=
  match x, y with Fin p, Fin q => Fin (f p q) | _, _ => NaN end.

(** C cast of a finite double to an integer: toward zero. *)
Definition Qtrunc (q : Q) : Z :=
  if Qle_bool 0 q then Qfloor q else Qceiling q.

(** pandas refuses to cast a non-finite value to an integer. *)
Definition float_to_int (x : float) : result Z :=
  match x with Fin q => Ok (Qtrunc q) | NaN => Err ValueError end.

(** ** pandas columns and frames *)

Inductive column :=
| IntCol (f : nat → Z)
| FloatCol (f : nat → float).

Definition to_floats (c : column) : nat → float :=
  match c with
  | IntCol f => λ i, float_of_int (f i)
  | FloatCol f => f
  end.

Record DataFrame := mkDataFrame {
  nrows : nat;
  cols : gmap string column
}.

(** [df[k]] *)
Definition getitem (k : string) : St DataFrame column :=
  λ df, (df, match cols df !! k with Some c => Ok c | None => Err (KeyError k) end).

(** [len(df)], the number of rows *)
Definition num_rows : St DataFrame nat := λ df, (df, Ok (nrows df)).

(** [df[k] = c] *)
Definition setitem (k : string) (c : column) : St DataFrame unit :=
  modify (λ df, {| nrows := nrows df; cols := <[k := c]> (cols df) |}).

(** Element-wise arithmetic, with numpy's promotion of int64 to float64. *)
Definition col_binop (fz : Z → Z → Z) (fq : Q → Q → Q) (a b : column) : column :=
  match a, b with
  | IntCol x, IntCol y => IntCol (λ i, fz (x i) (y i))
  | _, _ => FloatCol (λ i, float_map2 fq (to_floats a i) (to_floats b i))
  end.

Definition col_scalar (fz : Z → Z → Z) (fq : Q → Q → Q) (a : column) (k : Z) : column :=
  match a with
  | IntCol x => IntCol (λ i, fz (x i) k)
  | FloatCol x => FloatCol (λ i, float_map (λ q, fq q (inject_Z k)) (x i))
  end.

Definition col_add : column → column → column := col_binop Z.add Qplus.
Definition col_sub : column → column → column := col_binop Z.sub Qminus.
Definition col_add_scalar : column → Z → column := col_scalar Z.add Qplus.
Definition col_sub_scalar : column → Z → column := col_scalar Z.sub Qminus.

(** [np.clip(c, lo, None)] and [np.clip(c, None, hi)] *)
Definition clip_lower : column → Z → column := col_scalar Z.max Qmax.
Definition clip_upper : column → Z → column := col_scalar Z.min Qmin.

(** [np.ceil(c)]: always a float64 column. *)
Definition np_ceil (c : column) : column :=
  FloatCol (λ i, float_map (λ q, inject_Z (Qceiling q)) (to_floats c i)).

(** [c.astype(int)] on the [n] rows of a frame: the integer values, or the
    exception of the first cell that has none. *)
Definition astype_int (n : nat) (c : column) : result (nat → Z) :=
  match c with
  | IntCol f => Ok f
  | FloatCol f =>
      rmap (λ l i, default 0 (l !! i))
           (map_result (λ i, float_to_int (f i)) (seq 0 n))
  end.

(** ** numpy arrays *)

Record ndarray := mkArray {
  shape : list nat;
  item : list nat → Number
}.

(** Python's resolution of a slice bound against an axis of length [len]:
    a negative bound counts from the end, and the result is clamped. *)
Definition slice_bound (len : nat) (i : Z) : nat :=
  Z.to_nat (if i <? 0 then Z.max (i + Z.of_nat len) 0 else Z.min i (Z.of_nat len)).

(** The first index and the length of [a:b] on an axis of length [len]. *)
Definition slice_range (len : nat) (a b : Z) : nat * nat :=
  (slice_bound len a, slice_bound len b - slice_bound len a)%nat.

(** [image[z0:z1, y0:y1, x0:x1]]: three slices need three axes; further axes
    are kept whole. *)
Definition getitem3 (image : ndarray) (z0 z1 y0 y1 x0 x1 : Z) : result ndarray :=
  match shape image with
  | nz :: ny :: nx :: rest =>
      let '(zs, zl) := slice_range nz z0 z1 in
      let '(ys, yl) := slice_range ny y0 y1 in
      let '(xs, xl) := slice_range nx x0 x1 in
      Ok {| shape := zl :: yl :: xl :: rest;
            item := λ idx,
              match idx with
              | i :: j :: k :: tl => item image ((zs + i) :: (ys + j) :: (xs + k) :: tl)%nat
              | _ => item image idx
              end |}
  | _ => Err IndexError
  end.

(** ** measure_spot_intensity *)

(** Modelled from the spec: Features.SPOT_RADIUS, a constant of
    starfish.core.types (not among the sources), names the radius column of a
    SpotAttributes table. *)
Definition SPOT_RADIUS : string := "radius".

(** One row of [spots.data[['z_min', 'z_max', 'y_min', 'y_max', 'x_min', 'x_max']]]. *)
Record box_row := mkRow {
  z_min : Z; z_max : Z;
  y_min : Z; y_max : Z;
  x_min : Z; x_max : Z
}.

Section Measure.

Variable image : ndarray.
Variable measurement_function : ndarray → result Number.
Variable radius_is_gyration : bool.

(** The inner function [fn]. *)
Definition fn (row : box_row) : result Number :=
  rbind (getitem3 image (z_min row) (z_max row) (y_min row) (y_max row)
           (x_min row) (x_max row))
        measurement_function.

(** The [if radius_is_gyration: ... else: ...] that computes [radius]. *)
Definition spot_radius : St DataFrame column :=
  let! n := num_rows in
  let! raw := getitem SPOT_RADIUS in
  if radius_is_gyration
  then let! r := lift (astype_int n (np_ceil raw)) in ret (col_add_scalar (IntCol r) 1)
  else let! r := lift (astype_int n raw) in ret (IntCol r).

(** The body of [for v, max_size in zip(['z', 'y', 'x'], image.shape)]. *)
Definition set_bounds (radius : column) (vm : string * nat) : St DataFrame unit :=
  let '(v, max_size) := vm in
  let! lo := getitem v in
  setitem (v +:+ "_min") (clip_lower (col_sub lo (col_sub_scalar radius 1)) 0) ;;;
  let! hi := getitem v in
  setitem (v +:+ "_max") (clip_upper (col_add hi radius) (Z.of_nat max_size)).

(** [spots.data[[...]].astype(int)]: the six columns, as integers. *)
Definition select_boxes : St DataFrame (nat → box_row) :=
  let! n := num_rows in
  let! c1 := getitem "z_min" in
  let! c2 := getitem "z_max" in
  let! c3 := getitem "y_min" in
  let! c4 := getitem "y_max" in
  let! c5 := getitem "x_min" in
  let! c6 := getitem "x_max" in
  let! a1 := lift (astype_int n c1) in
  let! a2 := lift (astype_int n c2) in
  let! a3 := lift (astype_int n c3) in
  let! a4 := lift (astype_int n c4) in
  let! a5 := lift (astype_int n c5) in
  let! a6 := lift (astype_int n c6) in
  ret (λ i, mkRow (a1 i) (a2 i) (a3 i) (a4 i) (a5 i) (a6 i)).

(** The function itself; its state is [spots.data]. *)
Definition measure_spot_intensity : St DataFrame (list Number) :=
  let! radius := spot_radius in
  for_each (zip ["z"; "y"; "x"] (shape image)) (set_bounds radius) ;;;
  let! boxes := select_boxes in
  let! n := num_rows in
  lift (map_result (λ i, fn (boxes i)) (seq 0 n)).

End Measure.

(** ** The bounding box, in the words of the specification *)

(** ceil(raw) + 1 under the radius-of-gyration policy, trunc(raw) otherwise. *)
Definition effective_radius (radius_is_gyration : bool) (raw : Q) : Z :=
  if radius_is_gyration then Qceiling raw + 1 else Qtrunc raw.

(** clip(center - (radius - 1), lower bound 0) *)
Definition box_min (center radius : Z) : Z := Z.max (center - (radius - 1)) 0.

(** clip(center + radius, upper bound axis_length) *)
Definition box_max (center radius : Z) (axis_length : nat) : Z :=
  Z.min (center + radius) (Z.of_nat axis_length).

(** The box of a spot in an image whose first three axes have lengths
    [nz], [ny], [nx]. *)
Definition spot_box (nz ny nx : nat) (z y x r : Z) : box_row :=
  mkRow (box_min z r) (box_max z r nz)
        (box_min y r) (box_max y r ny)
        (box_min x r) (box_max x r nx).

(** A spots table with integer [z], [y], [x] columns and a radius column of
    finite values [raw] (of either dtype). *)
Definition spots_table (df : DataFrame) (zc yc xc : nat → Z) (raw : nat → Q) : Prop :=
  cols df !! "z" = Some (IntCol zc) ∧
  cols df !! "y" = Some (IntCol yc) ∧
  cols df !! "x" = Some (IntCol xc) ∧
  ∃ rc, cols df !! SPOT_RADIUS = Some rc ∧
        ∀ i, (i < nrows df)%nat → to_floats rc i = Fin (raw i).

(** The table after a call: the six box columns written over [df]. *)
Definition with_boxes (df : DataFrame) (zc yc xc r : nat → Z) (nz ny nx : nat) : DataFrame :=
  {| nrows := nrows df;
     cols :=
       <["x_max" := IntCol (λ i, Z.min (xc i + r i) (Z.of_nat nx))]>
      (<["x_min" := IntCol (λ i, Z.max (xc i - (r i - 1)) 0)]>
      (<["y_max" := IntCol (λ i, Z.min (yc i + r i) (Z.of_nat ny))]>
      (<["y_min" := IntCol (λ i, Z.max (yc i - (r i - 1)) 0)]>
      (<["z_max" := IntCol (λ i, Z.min (zc i + r i) (Z.of_nat nz))]>
      (<["z_min" := IntCol (λ i, Z.max (zc i - (r i - 1)) 0)]> (cols df)))))) |}.

(** The same for columns of any dtype: what the loop of a call on an image
    of at least three axes leaves on the table. *)
Definition with_box_columns (df : DataFrame) (radius zc yc xc : column)
    (nz ny nx : nat) : DataFrame :=
  {| nrows := nrows df;
     cols :=
       <["x_max" := clip_upper (col_add xc radius) (Z.of_nat nx)]>
      (<["x_min" := clip_lower (col_sub xc (col_sub_scalar radius 1)) 0]>
      (<["y_max" := clip_upper (col_add yc radius) (Z.of_nat ny)]>
      (<["y_min" := clip_lower (col_sub yc (col_sub_scalar radius 1)) 0]>
      (<["z_max" := clip_upper (col_add zc radius) (Z.of_nat nz)]>
      (<["z_min" := clip_lower (col_sub zc (col_sub_scalar radius 1)) 0]> (cols df)))))) |}.

(** The bounds written on the table for the axis [v] of the spot in row [i]. *)
Definition box_bounds (df : DataFrame) (v : string) (i : nat) : option (Z * Z) :=
  match cols df !! (v +:+ "_min"), cols df !! (v +:+ "_max") with
  | Some (IntCol lo), Some (IntCol hi) => Some (lo i, hi i)
  | _, _ => None
  end.

(** ** The image stack and the intensity table *)

(** Modelled from the spec: ImageStack (starfish.core.imagestack is not among
    the sources) is the external stack, read-only for this code: it enumerates
    the labels of its channel and round axes and retrieves the 3-D slice of a
    (channel, round) pair. A retrieval may raise, as any external call. *)
Record ImageStack := mkStack {
  axis_labels_CH : list Z;
  axis_labels_ROUND : list Z;
  get_slice : Z → Z → result ndarray
}.

(** Modelled from the spec: IntensityTable (starfish.core.intensity_table is
    not among the sources) is a tensor indexed by (feature, channel, round)
    holding one intensity per cell, with the per-feature side table carried
    alongside. Features are labelled 0 .. n-1; a cell is addressed by labels. *)
Record IntensityTable := mkTable {
  features : DataFrame;
  ch_index : list Z;
  round_index : list Z;
  cells : gmap (nat * Z * Z) Number
}.

(** [intensity_table.sizes[Features.AXIS]] *)
Definition sizes_features (t : IntensityTable) : nat := nrows (features t).

(** Modelled from the spec: IntensityTable.zeros allocates the tensor sized
    (spot_count, channel_count, round_count), every cell at the neutral fill
    value zero. Its parameters are taken in the order of the keyword call in
    measure_spot_intensities (spot_attributes, round_labels, ch_labels), which
    is how the positional call in the merge reads them. *)
Definition zeros (spot_attributes : DataFrame) (round_labels ch_labels : list Z)
  : IntensityTable :=
  {| features := spot_attributes;
     ch_index := ch_labels;
     round_index := round_labels;
     cells := list_to_map
       (map (λ k, (k, Fin 0))
          (list_prod (list_prod (seq 0 (nrows spot_attributes)) ch_labels) round_labels)) |}.

(** Modelled from the spec: [intensity_table.loc[dict(c=c, r=r)] = column]
    writes the column of one (channel, round) slot; a label that is not on the
    axis is a KeyError, a column of another length a ValueError. *)
Definition write_column (c r : Z) (column : list Number) (m : gmap (nat * Z * Z) Number)
  : gmap (nat * Z * Z) Number :=
  foldr (λ iv m, <[(iv.1, c, r) := iv.2]> m) m (imap pair column).

Definition loc_set_column (c r : Z) (column : list Number) (t : IntensityTable)
  : result IntensityTable :=
  if decide (c ∈ ch_index t ∧ r ∈ round_index t) then
    if decide (length column = sizes_features t) then
      Ok {| features := features t; ch_index := ch_index t;
            round_index := round_index t;
            cells := write_column c r column (cells t) |}
    else Err ValueError
  else Err (KeyError "c, r").

(** Modelled from the spec: [intensity_table.loc[dict(features=i, c=c, r=r)] = v]
    writes one cell. *)
Definition loc_set_cell (i : nat) (c r : Z) (v : Number) (t : IntensityTable)
  : result IntensityTable :=
  if decide ((i < sizes_features t)%nat ∧ c ∈ ch_index t ∧ r ∈ round_index t) then
    Ok {| features := features t; ch_index := ch_index t;
          round_index := round_index t;
          cells := <[(i, c, r) := v]> (cells t) |}
  else Err (KeyError "features, c, r").

(** ** measure_spot_intensities *)

(** What a run does to its collaborators, in order. *)
Inductive event :=
| GetSlice (c r : Z)
| WriteSlot (c r : Z)
| FindSpots
| MaxProj
| Transform
| TransferCoords.

(** The objects a run of [measure_spot_intensities] acts on: the caller's spots
    table, and the record of the calls made so far (latest last). *)
Record World := mkWorld {
  spots : DataFrame;
  trace : list event
}.

Definition emit (e : event) : St World unit :=
  modify (λ w, {| spots := spots w; trace := trace w ++ [e] |}).

(** Run a computation on the spots table of the world. *)
Definition on_spots {A} (m : St DataFrame A) : St World A :=
  λ w, let '(df, r) := m (spots w) in ({| spots := df; trace := trace w |}, r).

Section MeasureAll.

Variable data_image : ImageStack.
Variable measurement_function : ndarray → result Number.
Variable radius_is_gyration : bool.

(** The body of [for c, r in indices]. *)
Definition fill_frame (cr : Z * Z) (intensity_table : IntensityTable)
  : St World IntensityTable :=
  let '(c, r) := cr in
  emit (GetSlice c r) ;;;
  let! image := lift (get_slice data_image c r) in
  let! blob_intensities :=
    on_spots (measure_spot_intensity image measurement_function radius_is_gyration) in
  emit (WriteSlot c r) ;;;
  lift (loc_set_column c r blob_intensities intensity_table).

(** The loop over [indices], which rebinds nothing but mutates the table. *)
Fixpoint fill (indices : list (Z * Z)) (intensity_table : IntensityTable)
  : St World IntensityTable :=
  match indices with
  | [] => ret intensity_table
  | cr :: rest =>
      let! t := fill_frame cr intensity_table in
      fill rest t
  end.

Definition measure_spot_intensities : St World IntensityTable :=
  let ch_labels := axis_labels_CH data_image in
  let round_labels := axis_labels_ROUND data_image in
  let! spot_attributes := (λ w, (w, Ok (spots w))) in
  let intensity_table := zeros spot_attributes round_labels ch_labels in
  if decide (sizes_features intensity_table = 0%nat) then ret intensity_table
  else fill (list_prod ch_labels round_labels) intensity_table.

End MeasureAll.

(** *** The tensor, in the words of the specification *)




(** How often [x] occurs in [l]. *)
Definition occurrences {A} `{EqDecision A} (x : A) (l : list A) : nat :=
  length (filter (λ y, y = x) l).

Global Instance event_eq_dec : EqDecision event.
Proof. solve_decision. Defined.

(** ** concatenate_spot_attributes_to_intensities *)

(** The indices (channel, round) a frame's spots are associated with: the
    dict [{Axes.CH: c, Axes.ROUND: r}] that the grouped map hands out. *)
Record frame_key := mkKey {
  key_CH : Z;
  key_ROUND : Z
}.

(** [sorted(set(xs))] *)
Definition sorted_set (xs : list Z) : list Z := merge_sort Z.le (remove_dups xs).

(** Rows of [b] below the [n] rows of [a]; an integer column stays one only
    when both parts are. *)
Definition col_append (n : nat) (a b : column) : column :=
  match a, b with
  | IntCol x, IntCol y => IntCol (λ i, if (i <? n)%nat then x i else y (i - n)%nat)
  | _, _ => FloatCol (λ i, if (i <? n)%nat then to_floats a i else to_floats b (i - n)%nat)
  end.

Definition nan_col : column := FloatCol (λ _, NaN).

(** [pd.concat([a, b], sort=True)]: the union of the columns, a column that a
    frame lacks padded with NaN over that frame's rows. *)
Definition concat2 (a b : DataFrame) : DataFrame :=
  {| nrows := nrows a + nrows b;
     cols := merge (λ x y,
                match x, y with
                | None, None => None
                | _, _ => Some (col_append (nrows a) (default nan_col x) (default nan_col y))
                end) (cols a) (cols b) |}.

(** [pd.concat(frames, sort=True)], which refuses an empty list. *)
Definition pd_concat (frames : list DataFrame) : result DataFrame :=
  match frames with
  | [] => Err ValueError
  | f :: fs => Ok (foldl concat2 f fs)
  end.

(** [df.drop(ks, axis=1)]: every label must be a column. *)
Definition drop (ks : list string) (df : DataFrame) : result DataFrame :=
  match filter (λ k, cols df !! k = None) ks with
  | [] => Ok {| nrows := nrows df; cols := foldr delete (cols df) ks |}
  | k :: _ => Err (KeyError k)
  end.

(** [row['intensity']] for the row [j] of [attrs.data.iterrows()]. *)
Definition row_item (attrs : DataFrame) (k : string) (j : nat) : result Number :=
  match cols attrs !! k with
  | Some c => Ok (to_floats c j)
  | None => Err (KeyError k)
  end.

(** The body of the inner loop; the state is the counter [i] and the table. *)
Definition assign_row (attrs : DataFrame) (inds : frame_key) (j : nat)
  : St (nat * IntensityTable) unit :=
  let! it := get in
  let! v := lift (row_item attrs "intensity" j) in
  let! t := lift (loc_set_cell it.1 (key_CH inds) (key_ROUND inds) v it.2) in
  modify (λ _, (S it.1, t)).

(** The body of the outer loop. *)
Definition assign_frame (frame : DataFrame * frame_key) : St (nat * IntensityTable) unit :=
  for_each (seq 0 (nrows frame.1)) (assign_row frame.1 frame.2).

(** The function itself. A SpotAttributes object is its table [data]: the
    class is declared in starfish.core.types, not among the sources, and
    [SpotAttributes(features_coordinates)] wraps the table it is given. *)
Definition concatenate_spot_attributes_to_intensities
    (spot_attributes : list (DataFrame * frame_key)) : result IntensityTable :=
  let ch_values := sorted_set (map (λ f, key_CH f.2) spot_attributes) in
  let round_values := sorted_set (map (λ f, key_ROUND f.2) spot_attributes) in
  rbind (pd_concat (map fst spot_attributes)) (λ all_spots,
  rbind (drop ["spot_id"; "intensity"] all_spots) (λ features_coordinates,
  let intensity_table := zeros features_coordinates round_values ch_values in
  match for_each spot_attributes assign_frame (0%nat, intensity_table) with
  | (it, Ok _) => Ok it.2
  | (_, Err e) => Err e
  end)).

(** *** The merge, in the words of the specification *)

(** The already-measured intensity of row [j] of a frame. *)
Definition intensity_of (attrs : DataFrame) (j : nat) : Number :=
  match cols attrs !! "intensity" with
  | Some c => to_floats c j
  | None => NaN
  end.

(** The rows of a frame, each with the channel and round of its frame. *)
Definition frame_rows (frame : DataFrame * frame_key) : list (Z * Z * Number) :=
  map (λ j, (key_CH frame.2, key_ROUND frame.2, intensity_of frame.1 j))
      (seq 0 (nrows frame.1)).

(** Feature [i], [i + 1], ... take the rows in order, each written at the
    channel and round of its row only. *)
Fixpoint insert_rows (i : nat) (rows : list (Z * Z * Number))
    (m : gmap (nat * Z * Z) Number) : gmap (nat * Z * Z) Number :=
  match rows with
  | [] => m
  | (c, r, v) :: rest => insert_rows (S i) rest (<[(i, c, r) := v]> m)
  end.

(** The number of spot rows of the frames. *)
Definition total_rows (frames : list (DataFrame * frame_key)) : nat :=
  sum_list (map (λ f, nrows f.1) frames).

(** The position in the combined table of the first row of frame [k]. *)
Definition offset (frames : list (DataFrame * frame_key)) (k : nat) : nat :=
  total_rows (take k frames).

(** The table [t] with the cells [m]. *)
Definition set_cells (t : IntensityTable) (m : gmap (nat * Z * Z) Number) : IntensityTable :=
  {| features := features t; ch_index := ch_index t; round_index := round_index t;
     cells := m |}.

(** The frames that the merge accepts: there is one; the columns to drop
    exist in some frame; a frame with rows has its intensities. *)
Definition mergeable (frames : list (DataFrame * frame_key)) : Prop :=
  frames ≠ [] ∧
  (∃ f, f ∈ frames ∧ is_Some (cols f.1 !! "spot_id")) ∧
  (∃ f, f ∈ frames ∧ is_Some (cols f.1 !! "intensity")) ∧
  (∀ f, f ∈ frames → (0 < nrows f.1)%nat → is_Some (cols f.1 !! "intensity")).

(** ** detect_spots *)

Inductive Axes := ROUND | CH | ZPLANE | Y | X.

(** Run a computation of [measure_spot_intensities] on a spots table of its
    own, within a record of calls. *)
Definition with_spots {A} (spot_attributes : DataFrame) (m : St World A) : St (list event) A :=
  λ tr, let '(w, r) := m {| spots := spot_attributes; trace := tr |} in (trace w, r).

Definition log (e : event) : St (list event) unit := modify (λ tr, tr ++ [e]).

Section DetectSpots.

(** The collaborators: the pluggable spot finder, the methods of ImageStack
    that only this function uses, and the transfer of physical coordinates,
    which mutates the table it is given. *)
Variable spot_finding_method : ndarray → gmap string Z → result DataFrame.
Variable xarray : ImageStack → ndarray.
Variable max_proj : ImageStack → list Axes → result ImageStack.
Variable squeezed_numpy : ImageStack → list Axes → result ndarray.
Variable transform :
  ImageStack → (ndarray → result DataFrame) → list Axes → option nat →
  result (list (DataFrame * frame_key)).
Variable transfer_physical_coords_to_intensity_table :
  ImageStack → IntensityTable → result IntensityTable.

Variable data_stack : ImageStack.
Variable spot_finding_kwargs : option (gmap string Z).
Variable reference_image : option ImageStack.
Variable reference_image_max_projection_axes : option (list Axes).
Variable measurement_function : ndarray → result Number.
Variable radius_is_gyration : bool.
Variable n_processes : option nat.

Definition detect_spots : St (list event) IntensityTable :=
  let spot_finding_kwargs := default ∅ spot_finding_kwargs in
  let! intensity_table :=
    match reference_image with
    | Some reference_image =>
        let! data_image :=
          match reference_image_max_projection_axes with
          | Some axes =>
              log MaxProj ;;;
              let! reference_image := lift (max_proj reference_image axes) in
              lift (squeezed_numpy reference_image axes)
          | None => ret (xarray reference_image)
          end in
        log FindSpots ;;;
        let! reference_spot_locations :=
          lift (spot_finding_method data_image spot_finding_kwargs) in
        with_spots reference_spot_locations
          (measure_spot_intensities data_stack measurement_function radius_is_gyration)
    | None =>
        let spot_finding_method := λ image, spot_finding_method image spot_finding_kwargs in
        log Transform ;;;
        let! spot_attributes_list :=
          lift (transform data_stack spot_finding_method [ROUND; CH] n_processes) in
        lift (concatenate_spot_attributes_to_intensities spot_attributes_list)
    end in
  log TransferCoords ;;;
  lift (transfer_physical_coords_to_intensity_table data_stack intensity_table).

End DetectSpots.

(** *** The strategies, in the words of the specification *)

(** The array the spot finder is run on under the reference-image strategy:
    the reference max-projected over the given axes, or its raw array. *)
Definition reference_array (xarray : ImageStack → ndarray)
    (max_proj : ImageStack → list Axes → result ImageStack)
    (squeezed_numpy : ImageStack → list Axes → result ndarray)
    (reference_image : ImageStack) (axes : option (list Axes)) : result ndarray :=
  match axes with
  | Some axes => rbind (max_proj reference_image axes) (λ r, squeezed_numpy r axes)
  | None => Ok (xarray reference_image)
  end.

(** The events of a measurement pass. *)
Definition slot_event (e : event) : Prop :=
  match e with
  | GetSlice _ _ | WriteSlot _ _ => True
  | _ => False
  end.

(** ** A measurement function: np.max, the default of detect_spots *)

(** The elements of an array, in row-major order. *)
Fixpoint elements (dims : list nat) (at_ : list nat → Number) : list Number :=
  match dims with
  | [] => [at_ []]
  | n :: dims' => flat_map (λ i, elements dims' (λ idx, at_ (i :: idx))) (seq 0 n)
  end.

Definition float_max (x y : float) : float :=
  match x, y with
  | Fin p, Fin q => Fin (if Qle_bool p q then q else p)
  | _, _ => NaN
  end.

(** [np.max(a)]: a zero-size array has no maximum (ValueError). *)
Definition np_max (a : ndarray) : result Number :=
  match elements (shape a) (item a) with
  | [] => Err ValueError
  | x :: xs => Ok (foldl float_max x xs)
  end.

(** ** A small stack for the examples *)

(** A 1 x 4 x 4 volume, dark except for one pixel of intensity 9 at
    (z, y, x) = (0, 2, 2). *)
Definition bright_pixel : ndarray :=
  {| shape := [1; 4; 4]%nat;
     item := λ idx, match idx with [0; 2; 2]%nat => Fin 9 | _ => Fin 0 end |}.

(** One spot at (0, 2, 2) with the given raw radius. *)
Definition one_spot (radius : Q) : DataFrame :=
  {| nrows := 1;
     cols := <["z" := IntCol (λ _, 0)]> (<["y" := IntCol (λ _, 2)]>
            (<["x" := IntCol (λ _, 2)]> (<["radius" := FloatCol (λ _, Fin radius)]> ∅))) |}.

(** The spot finder found nothing: the columns without a row. *)
Definition no_spots : DataFrame :=
  {| nrows := 0; cols := cols (one_spot 1) |}.

(** The empty table after a call on the volume: it carries the box columns. *)
Definition measured_no_spots : DataFrame :=
  (measure_spot_intensity bright_pixel np_max false no_spots).1.

(** A 4 x 4 image, without a z axis. *)
Definition flat_image : ndarray :=
  {| shape := [4; 4]%nat; item := λ _, Fin 1 |}.

(** A frame of intensity 1/2 everywhere. *)
Definition dim_frame : ndarray :=
  {| shape := [1; 4; 4]%nat; item := λ _, Fin (1 # 2) |}.

(** Two channels, one round: the bright pixel in channel 0 only. *)
Definition two_channels : ImageStack :=
  {| axis_labels_CH := [0; 1];
     axis_labels_ROUND := [0];
     get_slice := λ c r, Ok (if c =? 0 then bright_pixel else dim_frame) |}.

(** A stack double that raises when sliced. *)
Definition unreadable_stack : ImageStack :=
  {| axis_labels_CH := [0; 1];
     axis_labels_ROUND := [0];
     get_slice := λ c r, Err (Raised 1) |}.

(** The frame of a detector that found one spot of the given intensity. *)
Definition detected (intensity : Q) : DataFrame :=
  {| nrows := 1;
     cols := <["intensity" := FloatCol (λ _, Fin intensity)]>
            (<["spot_id" := IntCol (λ _, 0)]> (cols (one_spot 1))) |}.

(** The frame of a detector that found nothing. *)
Definition detected_nothing : DataFrame :=
  {| nrows := 0; cols := cols (detected 0) |}.

(** ** Further properties: definitions *)

(** The columns a call of measure_spot_intensity selects for its boxes. *)
Definition box_columns : list string :=
  ["z_min"; "z_max"; "y_min"; "y_max"; "x_min"; "x_max"].

(** Two tables that differ at most in their box columns. *)
Definition same_spots (df df' : DataFrame) : Prop :=
  nrows df = nrows df' ∧
  ∀ k, k ∉ box_columns → cols df !! k = cols df' !! k.



(** ** Basic facts *)

Lemma bind_is_err {S A B} (m : St S A) (k : A → St S B) (s : S) :
  (∀ s' a, m s = (s', Ok a) → is_err (k a s').2) → is_err (bind m k s).2.
Proof.
  intros H. unfold bind. destruct (m s) as [s' [a|e]]; [by apply H|done].
Qed.

Lemma bind_Ok_inv {S A B} (m : St S A) (k : A → St S B) (s s2 : S) (b : B) :
  bind m k s = (s2, Ok b) → ∃ s1 a, m s = (s1, Ok a) ∧ k a s1 = (s2, Ok b).
Proof.
  unfold bind. destruct (m s) as [s1 [a|e]]; [|done]. intros H. by exists s1, a.
Qed.

Lemma bind_err_l {S A B} (m : St S A) (k : A → St S B) (s : S) :
  is_err (m s).2 → is_err (bind m k s).2.
Proof. unfold bind. by destruct (m s) as [s' [a|e]]. Qed.

Lemma Qtrunc_inject_Z (z : Z) : Qtrunc (inject_Z z) = z.
Proof.
  unfold Qtrunc. destruct (Qle_bool 0 (inject_Z z)).
  - apply Qfloor_Z.
  - apply Qceiling_Z.
Qed.




Lemma map_result_Ok {A B} (f : A → result B) (g : A → B) (l : list A) :
  (∀ x, x ∈ l → f x = Ok (g x)) → map_result f l = Ok (map g l).
Proof.
  induction l as [|a l IH]; intros H; [done|]. simpl.
  rewrite (H a) by set_solver. simpl. rewrite IH; [done|].
  intros x Hx. apply H. set_solver.
Qed.

Lemma map_result_length {A B} (f : A → result B) (l : list A) (bs : list B) :
  map_result f l = Ok bs → length bs = length l.
Proof.
  revert bs. induction l as [|a l IH]; intros bs; simpl.
  - by intros [= <-].
  - destruct (f a); [|done]. simpl. destruct (map_result f l); [|done].
    simpl. intros [= <-]. simpl. f_equal. by apply IH.
Qed.

Lemma map_result_lookup {A B} (f : A → result B) (l : list A) (bs : list B) i a :
  map_result f l = Ok bs → l !! i = Some a → ∃ b, bs !! i = Some b ∧ f a = Ok b.
Proof.
  revert bs i. induction l as [|a' l IH]; intros bs i; simpl; [done|].
  destruct (f a') as [b'|] eqn:Ha'; [|done]. simpl.
  destruct (map_result f l) as [bs'|]; [|done]. simpl. intros [= <-].
  destruct i as [|i]; simpl.
  - intros [= ->]. eauto.
  - intros Hi. by apply IH.
Qed.

Lemma map_result_Err {A B} (f : A → result B) (l : list A) a :
  a ∈ l → is_err (f a) → is_err (map_result f l).
Proof.
  induction l as [|a' l IH]; [set_solver|]. intros Hin Ha. simpl.
  destruct (f a') as [b|] eqn:E; [|done]. simpl.
  assert (a ∈ l) as Hl.
  { apply elem_of_cons in Hin as [->|]; [|done]. by rewrite E in Ha. }
  specialize (IH Hl Ha). by destruct (map_result f l).
Qed.

(** Casting a column of finite values to integers succeeds and truncates. *)
Lemma astype_int_finite (n : nat) (c : column) (q : nat → Q) :
  (∀ i, (i < n)%nat → to_floats c i = Fin (q i)) →
  ∃ g, astype_int n c = Ok g ∧ ∀ i, (i < n)%nat → g i = Qtrunc (q i).
Proof.
  intros H. destruct c as [f|f]; simpl in *.
  - exists f. split; [done|]. intros i Hi. specialize (H i Hi).
    unfold float_of_int in H. injection H as <-. by rewrite Qtrunc_inject_Z.
  - rewrite (map_result_Ok _ (λ i, Qtrunc (q i))).
    + simpl. eexists. split; [done|]. intros i Hi. simpl.
      rewrite list_lookup_fmap, lookup_seq_lt by done. done.
    + intros i Hi. apply elem_of_seq in Hi. rewrite H by lia. done.
Qed.

(** A column with a NaN among its rows cannot be cast. *)
Lemma astype_int_nan (n : nat) (f : nat → float) (i : nat) :
  (i < n)%nat → f i = NaN → is_err (astype_int n (FloatCol f)).
Proof.
  intros Hi Hf. simpl.
  assert (is_err (map_result (λ i, float_to_int (f i)) (seq 0 n))) as H.
  { apply (map_result_Err _ _ i); [apply elem_of_seq; lia|]. by rewrite Hf. }
  by destruct (map_result _ _).
Qed.

(** ** The run of measure_spot_intensity on a well-typed table *)

Lemma spot_radius_run gyr df zc yc xc raw :
  spots_table df zc yc xc raw →
  ∃ r, (∀ i, (i < nrows df)%nat → r i = effective_radius gyr (raw i)) ∧
       spot_radius gyr df = (df, Ok (IntCol r)).
Proof.
  intros (_ & _ & _ & rc & Hrc & Hfin).
  unfold spot_radius, bind, num_rows, getitem, lift, ret. rewrite Hrc.
  destruct gyr.
  - destruct (astype_int_finite (nrows df) (np_ceil rc)
                (λ i, inject_Z (Qceiling (raw i)))) as (g & -> & Hg).
    { intros i Hi. simpl. by rewrite Hfin. }
    exists (λ i, g i + 1). split; [|done].
    intros i Hi. unfold effective_radius. rewrite Hg by done.
    by rewrite Qtrunc_inject_Z.
  - destruct (astype_int_finite (nrows df) rc raw Hfin) as (g & -> & Hg).
    exists g. split; [|done]. intros i Hi. by apply Hg.
Qed.

Lemma measure_spot_intensity_run image M gyr df zc yc xc raw nz ny nx rest :
  spots_table df zc yc xc raw →
  shape image = nz :: ny :: nx :: rest →
  ∃ r, (∀ i, (i < nrows df)%nat → r i = effective_radius gyr (raw i)) ∧
       measure_spot_intensity image M gyr df =
       (with_boxes df zc yc xc r nz ny nx,
        map_result (λ i, fn image M (spot_box nz ny nx (zc i) (yc i) (xc i) (r i)))
          (seq 0 (nrows df))).
Proof.
  intros Hdf Hshape.
  destruct (spot_radius_run gyr df zc yc xc raw Hdf) as (r & Hr & Hrun).
  destruct Hdf as (Hz & Hy & Hx & _).
  exists r. split; [done|].
  unfold measure_spot_intensity. unfold bind at 1. rewrite Hrun, Hshape.
  destruct df as [n m]. simpl in *.
  unfold select_boxes, set_bounds, num_rows, getitem, setitem, modify, ret, bind, lift.
  cbv [String.append]. simpl.
  rewrite Hz. simpl.
  rewrite !lookup_insert_ne by done. rewrite Hz. simpl.
  rewrite !lookup_insert_ne by done. rewrite Hy. simpl.
  rewrite !lookup_insert_ne by done. rewrite Hy. simpl.
  rewrite !lookup_insert_ne by done. rewrite Hx. simpl.
  rewrite !lookup_insert_ne by done. rewrite Hx. simpl.
  repeat (first [rewrite lookup_insert_eq | rewrite lookup_insert_ne by done]).
  simpl. done.
Qed.


Lemma box_bounds_with_boxes df zc yc xc r nz ny nx i :
  box_bounds (with_boxes df zc yc xc r nz ny nx) "z" i
    = Some (box_min (zc i) (r i), box_max (zc i) (r i) nz) ∧
  box_bounds (with_boxes df zc yc xc r nz ny nx) "y" i
    = Some (box_min (yc i) (r i), box_max (yc i) (r i) ny) ∧
  box_bounds (with_boxes df zc yc xc r nz ny nx) "x" i
    = Some (box_min (xc i) (r i), box_max (xc i) (r i) nx).
Proof.
  unfold box_bounds, with_boxes. cbv [String.append]. simpl.
  repeat (first [rewrite lookup_insert_eq | rewrite lookup_insert_ne by done]).
  done.
Qed.

(** ** The bounding boxes of measure_spot_intensity *)


Lemma slice_bound_le (len : nat) (i : Z) : (slice_bound len i ≤ len)%nat.
Proof. unfold slice_bound. destruct (i <? 0) eqn:E; lia. Qed.

Lemma slice_range_within (len : nat) (a b : Z) :
  ((slice_range len a b).1 + (slice_range len a b).2 ≤ len)%nat.
Proof.
  unfold slice_range. simpl.
  pose proof (slice_bound_le len a). pose proof (slice_bound_le len b). lia.
Qed.

Lemma slice_bound_inside (len : nat) (i : Z) :
  0 <= i <= Z.of_nat len → slice_bound len i = Z.to_nat i.
Proof.
  intros H. unfold slice_bound.
  destruct (i <? 0) eqn:E; [lia|]. f_equal. lia.
Qed.

Lemma zip_axes_cases (v : string) (n nz ny nx : nat) (rest : list nat) :
  (v, n) ∈ zip ["z"; "y"; "x"] (nz :: ny :: nx :: rest) →
  (v = "z" ∧ n = nz) ∨ (v = "y" ∧ n = ny) ∨ (v = "x" ∧ n = nx).
Proof.
  simpl. rewrite !elem_of_cons.
  intros [[= -> ->]|[[= -> ->]|[[= -> ->]|H]]]; auto.
  destruct rest; simpl in H; by apply elem_of_nil in H.
Qed.

(** C3: for every spot, radius and policy, the box written for an axis has
    0 <= box_min and box_max <= axis_length, every index of the box lies in
    [0, axis_length), and so does the range that numpy resolves the slice
    box_min:box_max to. *)
Theorem box_clipped_to_image image M gyr df zc yc xc raw nz ny nx rest :
  spots_table df zc yc xc raw →
  shape image = nz :: ny :: nx :: rest →
  ∀ v n i, (v, n) ∈ zip ["z"; "y"; "x"] (shape image) → (i < nrows df)%nat →
    ∃ lo hi,
      box_bounds (measure_spot_intensity image M gyr df).1 v i = Some (lo, hi) ∧
      0 <= lo ∧ hi <= Z.of_nat n ∧
      (∀ k, lo <= k < hi → 0 <= k < Z.of_nat n) ∧
      ((slice_range n lo hi).1 + (slice_range n lo hi).2 ≤ n)%nat.
Proof.
  intros Hdf Hshape v n i Hv Hi.
  destruct (measure_spot_intensity_run image M gyr df zc yc xc raw nz ny nx rest
              Hdf Hshape) as (r & _ & ->).
  simpl. rewrite Hshape in Hv.
  destruct (box_bounds_with_boxes df zc yc xc r nz ny nx i) as (Hz & Hy & Hx).
  unfold box_min, box_max in *.
  destruct (zip_axes_cases _ _ _ _ _ _ Hv) as [[-> ->]|[[-> ->]|[-> ->]]];
    eexists _, _; (split; [eassumption|]);
    (split; [lia|]); (split; [lia|]); (split; [lia|]);
    apply slice_range_within.
Qed.


Lemma one_spot_table (radius : Q) :
  spots_table (one_spot radius) (λ _, 0) (λ _, 2) (λ _, 2) (λ _, radius).
Proof.
  repeat split; try reflexivity.
  eexists. split; [reflexivity|]. intros i _. reflexivity.
Qed.


Lemma box_clipped_to_image_witness :
  ∃ lo hi,
    box_bounds (measure_spot_intensity bright_pixel np_max true (one_spot 7)).1 "x" 0
      = Some (lo, hi) ∧
    0 <= lo ∧ hi <= 4 ∧ (∀ k, lo <= k < hi → 0 <= k < 4) ∧
    ((slice_range 4 lo hi).1 + (slice_range 4 lo hi).2 ≤ 4)%nat.
Proof.
  apply (box_clipped_to_image bright_pixel np_max true (one_spot 7) _ _ _ _
           1 4 4 [] (one_spot_table 7) eq_refl "x" 4%nat 0%nat).
  - simpl. repeat constructor.
  - simpl. lia.
Defined.


(** ** Radius zero and radius one *)

Lemma getitem3_box image nz ny nx z0 z1 y0 y1 x0 x1 :
  shape image = [nz; ny; nx] →
  ∃ a, getitem3 image z0 z1 y0 y1 x0 x1 = Ok a ∧
       shape a = [(slice_range nz z0 z1).2; (slice_range ny y0 y1).2;
                  (slice_range nx x0 x1).2] ∧
       ∀ i j k, item a [i; j; k] =
                item image [(slice_bound nz z0 + i)%nat; (slice_bound ny y0 + j)%nat;
                            (slice_bound nx x0 + k)%nat].
Proof.
  intros Hshape. unfold getitem3. rewrite Hshape. simpl.
  eexists. split; [reflexivity|]. simpl. split; reflexivity.
Qed.

(** C2, counterexample: a spot of radius zero at (0, 2, 2), inside the image,
    under truncation. The y box is [3, 2): it holds no index, so its size is
    not 1, and np.max raises on the empty sub-array instead of returning the
    pixel value 9 at the centre. *)
Lemma zero_radius_box_is_not_one_pixel :
  spots_table (one_spot 0) (λ _, 0) (λ _, 2) (λ _, 2) (λ _, 0%Q) ∧
  item bright_pixel [0; 2; 2]%nat = Fin 9 ∧
  box_bounds (measure_spot_intensity bright_pixel np_max false (one_spot 0)).1 "y" 0
    = Some (3, 2) ∧
  (measure_spot_intensity bright_pixel np_max false (one_spot 0)).2 = Err ValueError ∧
  (measure_spot_intensity bright_pixel np_max false (one_spot 0)).2 ≠ Ok [Fin 9].
Proof.
  split; [apply one_spot_table|].
  split; [reflexivity|]. split; [reflexivity|]. split; [reflexivity|]. discriminate.
Qed.

(** C2, amended: under truncation, for a spot whose centre lies inside a 3-D
    image, a truncated radius of zero gives the box [center + 1, center) on
    every axis, which is empty, and the measurement function is applied to a
    sub-array of shape (0, 0, 0); the box of size 1 per axis that holds exactly
    the pixel at the centre is the one of truncated radius one. *)
Theorem zero_radius_box_empty_unit_radius_box_one_pixel
    image M df zc yc xc raw nz ny nx i :
  spots_table df zc yc xc raw →
  shape image = [nz; ny; nx] →
  (i < nrows df)%nat →
  0 <= zc i < Z.of_nat nz → 0 <= yc i < Z.of_nat ny → 0 <= xc i < Z.of_nat nx →
  let run := measure_spot_intensity image M false df in
  (Qtrunc (raw i) = 0 →
     box_bounds run.1 "z" i = Some (zc i + 1, zc i) ∧
     box_bounds run.1 "y" i = Some (yc i + 1, yc i) ∧
     box_bounds run.1 "x" i = Some (xc i + 1, xc i) ∧
     ∃ a, getitem3 image (zc i + 1) (zc i) (yc i + 1) (yc i) (xc i + 1) (xc i) = Ok a ∧
          shape a = [0; 0; 0]%nat ∧
          ∀ vs v, run.2 = Ok vs → vs !! i = Some v → M a = Ok v) ∧
  (Qtrunc (raw i) = 1 →
     box_bounds run.1 "z" i = Some (zc i, zc i + 1) ∧
     box_bounds run.1 "y" i = Some (yc i, yc i + 1) ∧
     box_bounds run.1 "x" i = Some (xc i, xc i + 1) ∧
     ∃ a, getitem3 image (zc i) (zc i + 1) (yc i) (yc i + 1) (xc i) (xc i + 1) = Ok a ∧
          shape a = [1; 1; 1]%nat ∧
          item a [0; 0; 0]%nat
            = item image [Z.to_nat (zc i); Z.to_nat (yc i); Z.to_nat (xc i)] ∧
          ∀ vs v, run.2 = Ok vs → vs !! i = Some v → M a = Ok v).
Proof.
  intros Hdf Hshape Hi Hz Hy Hx run.
  destruct (measure_spot_intensity_run image M false df zc yc xc raw nz ny nx []
              Hdf Hshape) as (r & Hr & Hrun).
  pose proof (box_bounds_with_boxes df zc yc xc r nz ny nx i) as Hb.
  assert (∀ vs v, run.2 = Ok vs → vs !! i = Some v →
          fn image M (spot_box nz ny nx (zc i) (yc i) (xc i) (r i)) = Ok v) as Hval.
  { intros vs v Hvs Hv. subst run. rewrite Hrun in Hvs. simpl in Hvs.
    destruct (map_result_lookup _ _ _ i i Hvs) as (b & Hb' & Hf).
    { by apply lookup_seq_lt. }
    rewrite Hv in Hb'. by injection Hb' as <-. }
  subst run. rewrite Hrun in Hval |- *. simpl in Hval |- *.
  rewrite (Hr i Hi) in Hb, Hval.
  unfold effective_radius, fn, spot_box, box_min, box_max in *. simpl in *.
  split; intros Hrad; rewrite Hrad in Hb, Hval.
  - replace (Z.max (zc i - (0 - 1)) 0) with (zc i + 1) in * by lia.
    replace (Z.max (yc i - (0 - 1)) 0) with (yc i + 1) in * by lia.
    replace (Z.max (xc i - (0 - 1)) 0) with (xc i + 1) in * by lia.
    replace (Z.min (zc i + 0) (Z.of_nat nz)) with (zc i) in * by lia.
    replace (Z.min (yc i + 0) (Z.of_nat ny)) with (yc i) in * by lia.
    replace (Z.min (xc i + 0) (Z.of_nat nx)) with (xc i) in * by lia.
    destruct Hb as (-> & -> & ->). do 3 (split; [done|]).
    destruct (getitem3_box image nz ny nx (zc i + 1) (zc i) (yc i + 1) (yc i)
                (xc i + 1) (xc i) Hshape) as (a & Ha & Hsh & _).
    exists a. split; [done|]. split.
    + rewrite Hsh. unfold slice_range. simpl.
      rewrite !slice_bound_inside by lia. repeat f_equal; lia.
    + intros vs v Hvs Hv. specialize (Hval vs v Hvs Hv). by rewrite Ha in Hval.
  - replace (Z.max (zc i - (1 - 1)) 0) with (zc i) in * by lia.
    replace (Z.max (yc i - (1 - 1)) 0) with (yc i) in * by lia.
    replace (Z.max (xc i - (1 - 1)) 0) with (xc i) in * by lia.
    replace (Z.min (zc i + 1) (Z.of_nat nz)) with (zc i + 1) in * by lia.
    replace (Z.min (yc i + 1) (Z.of_nat ny)) with (yc i + 1) in * by lia.
    replace (Z.min (xc i + 1) (Z.of_nat nx)) with (xc i + 1) in * by lia.
    destruct Hb as (-> & -> & ->). do 3 (split; [done|]).
    destruct (getitem3_box image nz ny nx (zc i) (zc i + 1) (yc i) (yc i + 1)
                (xc i) (xc i + 1) Hshape) as (a & Ha & Hsh & Hitem).
    exists a. split; [done|]. split; [|split].
    + rewrite Hsh. unfold slice_range. simpl.
      rewrite !slice_bound_inside by lia. repeat f_equal; lia.
    + rewrite Hitem. rewrite !slice_bound_inside by lia.
      by rewrite !Nat.add_0_r.
    + intros vs v Hvs Hv. specialize (Hval vs v Hvs Hv). by rewrite Ha in Hval.
Qed.

(** ** The intensity tensor of measure_spot_intensities *)

Lemma list_to_map_const_lookup {K} `{Countable K} {V} (x : V) (l : list K) (k : K) :
  (list_to_map (map (λ k, (k, x)) l) : gmap K V) !! k
  = if decide (k ∈ l) then Some x else None.
Proof.
  induction l as [|a l IH].
  - cbn [map list_to_map foldr]. rewrite lookup_empty.
    destruct (decide (k ∈ [])) as [Hin|]; [|done]. by apply elem_of_nil in Hin.
  - cbn [map list_to_map foldr fst snd].
    destruct (decide (a = k)) as [->|Hne].
    + rewrite lookup_insert_eq.
      destruct (decide (k ∈ k :: l)) as [|Hn]; [done|].
      exfalso. apply Hn. apply elem_of_cons. by left.
    + rewrite lookup_insert_ne by done. rewrite IH.
      destruct (decide (k ∈ l)) as [Hin|Hin];
        destruct (decide (k ∈ a :: l)) as [Hin'|Hin']; try done.
      * exfalso. apply Hin'. apply elem_of_cons. by right.
      * apply elem_of_cons in Hin' as [->|]; done.
Qed.

Lemma elem_of_list_prod {A B} (l1 : list A) (l2 : list B) (a : A) (b : B) :
  (a, b) ∈ list_prod l1 l2 ↔ a ∈ l1 ∧ b ∈ l2.
Proof. rewrite !list_elem_of_In. apply in_prod_iff. Qed.

Lemma zeros_lookup df rounds chs i c r :
  cells (zeros df rounds chs) !! (i, c, r)
  = if decide ((i < nrows df)%nat ∧ c ∈ chs ∧ r ∈ rounds) then Some (Fin 0) else None.
Proof.
  unfold zeros. simpl. rewrite list_to_map_const_lookup.
  destruct (decide ((i, c, r) ∈ list_prod (list_prod (seq 0 (nrows df)) chs) rounds))
    as [Hin|Hin];
    rewrite !elem_of_list_prod, elem_of_seq in Hin;
    destruct (decide ((i < nrows df)%nat ∧ c ∈ chs ∧ r ∈ rounds)) as [Hd|Hd];
    try done; exfalso.
  - apply Hd. destruct Hin as [[[_ ?] ?] ?]. repeat split; [lia|done|done].
  - apply Hin. destruct Hd as (? & ? & ?). repeat split; [lia|lia|done|done].
Qed.






Section FillRun.

Variable data_image : ImageStack.
Variable M : ndarray → result Number.
Variable gyr : bool.
Variables zc yc xc : nat → Z.
Variable raw : nat → Q.
Variable v : nat → Z → Z → Number.
Variable n : nat.
Hypothesis n_pos : (0 < n)%nat.





End FillRun.

(** C5: on a spots table with zero rows the call returns at once a table with
    zero features and no cell, which is a result and not an exception; the
    world is left as it was, so no slice of the stack was retrieved, whatever
    a retrieval would have done. *)
Theorem no_spots_no_slice data_image M gyr w :
  nrows (spots w) = 0%nat →
  ∃ t, measure_spot_intensities data_image M gyr w = (w, Ok t) ∧
       sizes_features t = 0%nat ∧
       cells t = ∅ ∧
       ch_index t = axis_labels_CH data_image ∧
       round_index t = axis_labels_ROUND data_image ∧
       trace (measure_spot_intensities data_image M gyr w).1 = trace w.
Proof.
  intros Hn. unfold measure_spot_intensities, bind. simpl.
  unfold sizes_features at 1. simpl.
  rewrite decide_True by done. unfold ret. simpl.
  eexists. split; [reflexivity|].
  unfold sizes_features, zeros. simpl. rewrite Hn. simpl. done.
Qed.

Lemma occurrences_app {A} `{EqDecision A} (x : A) (l1 l2 : list A) :
  occurrences x (l1 ++ l2) = (occurrences x l1 + occurrences x l2)%nat.
Proof. unfold occurrences. by rewrite filter_app, length_app. Qed.

Lemma occurrences_nil {A} `{EqDecision A} (x : A) : occurrences x [] = 0%nat.
Proof. done. Qed.

Lemma occurrences_cons {A} `{EqDecision A} (x y : A) (l : list A) :
  occurrences x (y :: l) = ((if decide (y = x) then 1 else 0) + occurrences x l)%nat.
Proof.
  unfold occurrences. rewrite filter_cons. by destruct (decide (y = x)).
Qed.

Lemma occurrences_not_elem {A} `{EqDecision A} (x : A) (l : list A) :
  x ∉ l → occurrences x l = 0%nat.
Proof.
  induction l as [|y l IH]; intros Hx; [done|].
  rewrite occurrences_cons. apply not_elem_of_cons in Hx as [Hne Hx].
  rewrite decide_False by done. by rewrite IH.
Qed.






(** ** The merge of concatenate_spot_attributes_to_intensities *)

Lemma sorted_set_elem_of (xs : list Z) (x : Z) : x ∈ sorted_set xs ↔ x ∈ xs.
Proof.
  unfold sorted_set. rewrite merge_sort_Permutation. apply elem_of_remove_dups.
Qed.

Lemma sorted_set_NoDup (xs : list Z) : NoDup (sorted_set xs).
Proof.
  unfold sorted_set. rewrite merge_sort_Permutation. apply NoDup_remove_dups.
Qed.

Lemma sorted_set_Sorted (xs : list Z) : StronglySorted Z.le (sorted_set xs).
Proof. unfold sorted_set. apply StronglySorted_merge_sort; apply _. Qed.

(** Ascending without repetition: strictly ascending. *)
Lemma sorted_set_ascending (xs : list Z) : StronglySorted Z.lt (sorted_set xs).
Proof.
  pose proof (sorted_set_NoDup xs) as Hnd.
  pose proof (sorted_set_Sorted xs) as Hs.
  induction Hs as [|x l Hl IH Hall]; [constructor|].
  apply NoDup_cons in Hnd as [Hx Hnd].
  constructor; [by apply IH|].
  rewrite Forall_forall in *. intros y Hy. specialize (Hall y Hy).
  assert (x ≠ y) by (intros ->; done). lia.
Qed.

Lemma concat2_lookup (a b : DataFrame) (k : string) :
  cols (concat2 a b) !! k
  = match cols a !! k, cols b !! k with
    | None, None => None
    | x, y => Some (col_append (nrows a) (default nan_col x) (default nan_col y))
    end.
Proof.
  unfold concat2. simpl. rewrite lookup_merge.
  by destruct (cols a !! k), (cols b !! k).
Qed.

Lemma foldl_concat2_nrows (f : DataFrame) (fs : list DataFrame) :
  nrows (foldl concat2 f fs) = (nrows f + sum_list (map nrows fs))%nat.
Proof.
  revert f. induction fs as [|g fs IH]; intros f; simpl; [lia|].
  rewrite IH. simpl. lia.
Qed.

Lemma foldl_concat2_column (f : DataFrame) (fs : list DataFrame) (k : string) :
  is_Some (cols (foldl concat2 f fs) !! k)
  ↔ is_Some (cols f !! k) ∨ ∃ g, g ∈ fs ∧ is_Some (cols g !! k).
Proof.
  revert f. induction fs as [|g fs IH]; intros f; simpl.
  - split; [by left|]. intros [?|(g & Hg & _)]; [done|]. by apply elem_of_nil in Hg.
  - rewrite IH, concat2_lookup. split.
    + intros [H|(h & Hh & Hk)].
      * destruct (cols f !! k) eqn:Ef; [by left|].
        destruct (cols g !! k) eqn:Eg; [|by destruct H].
        right. exists g. split; [apply elem_of_cons; by left|]. by rewrite Eg.
      * right. exists h. split; [apply elem_of_cons; by right|done].
    + intros [[c Hc]|(h & Hh & [c Hc])].
      * left. rewrite Hc. by destruct (cols g !! k).
      * apply elem_of_cons in Hh as [->|Hh].
        -- left. rewrite Hc. by destruct (cols f !! k).
        -- right. exists h. split; [done|]. by rewrite Hc.
Qed.

Lemma insert_rows_lookup (i0 : nat) (rows : list (Z * Z * Number))
    (m : gmap (nat * Z * Z) Number) (i : nat) (c r : Z) :
  insert_rows i0 rows m !! (i, c, r)
  = match (if decide (i0 ≤ i)%nat then rows !! (i - i0)%nat else None) with
    | Some (c', r', v) => if decide (c = c' ∧ r = r') then Some v else m !! (i, c, r)
    | None => m !! (i, c, r)
    end.
Proof.
  revert i0 m. induction rows as [|[[c0 r0] v0] rest IH]; intros i0 m.
  - simpl. by destruct (decide (i0 ≤ i)%nat).
  - cbn [insert_rows]. rewrite IH.
    destruct (decide (S i0 ≤ i)%nat) as [Hlt|Hge].
    + rewrite decide_True by lia.
      replace (i - i0)%nat with (S (i - S i0)) by lia. simpl.
      rewrite lookup_insert_ne by (intros [= ? ? ?]; lia). done.
    + destruct (decide (i0 ≤ i)%nat) as [Hle|Hlt].
      * assert (i = i0) as -> by lia. rewrite Nat.sub_diag. simpl.
        destruct (decide (c = c0 ∧ r = r0)) as [[-> ->]|Hne].
        -- by rewrite lookup_insert_eq.
        -- rewrite lookup_insert_ne; [done|]. intros [= ? ?]. by apply Hne.
      * rewrite lookup_insert_ne by (intros [= ? ? ?]; lia). done.
Qed.

Lemma insert_rows_app (i0 : nat) (l1 l2 : list (Z * Z * Number))
    (m : gmap (nat * Z * Z) Number) :
  insert_rows i0 (l1 ++ l2) m = insert_rows (i0 + length l1) l2 (insert_rows i0 l1 m).
Proof.
  revert i0 m. induction l1 as [|[[c r] v] l1 IH]; intros i0 m; simpl.
  - by rewrite Nat.add_0_r.
  - rewrite IH. f_equal. lia.
Qed.

Lemma total_rows_cons f frames :
  total_rows (f :: frames) = (nrows f.1 + total_rows frames)%nat.
Proof. done. Qed.

Lemma length_frame_rows f : length (frame_rows f) = nrows f.1.
Proof. unfold frame_rows. by rewrite length_map, length_seq. Qed.

Lemma length_all_rows frames : length (flat_map frame_rows frames) = total_rows frames.
Proof.
  induction frames as [|f frames IH]; [done|].
  simpl. rewrite length_app, length_frame_rows, IH. done.
Qed.

(** Row [j] of frame [k] is the row [offset k + j] of the combined table. *)
Lemma all_rows_lookup frames k f j :
  frames !! k = Some f → (j < nrows f.1)%nat →
  flat_map frame_rows frames !! (offset frames k + j)%nat
  = Some (key_CH f.2, key_ROUND f.2, intensity_of f.1 j).
Proof.
  revert k. induction frames as [|g frames IH]; intros k Hk Hj; [done|].
  destruct k as [|k]; simpl in Hk.
  - injection Hk as ->. unfold offset. simpl.
    rewrite lookup_app_l by (by rewrite length_frame_rows).
    unfold frame_rows. rewrite list_lookup_fmap, lookup_seq_lt by done. done.
  - unfold offset in *. cbn [take flat_map]. rewrite total_rows_cons.
    rewrite lookup_app_r by (rewrite length_frame_rows; lia).
    rewrite length_frame_rows.
    replace (nrows g.1 + total_rows (take k frames) + j - nrows g.1)%nat
      with (total_rows (take k frames) + j)%nat by lia.
    by apply IH.
Qed.

Lemma offset_bound frames k f j :
  frames !! k = Some f → (j < nrows f.1)%nat →
  (offset frames k + j < offset frames (S k))%nat ∧
  (offset frames (S k) ≤ total_rows frames)%nat.
Proof.
  revert k. induction frames as [|g frames IH]; intros k Hk Hj; [done|].
  destruct k as [|k]; simpl in Hk.
  - injection Hk as ->. unfold offset. simpl. rewrite take_0.
    rewrite !total_rows_cons. unfold total_rows at 1 2. simpl. lia.
  - destruct (IH k Hk Hj) as [H1 H2]. unfold offset in *.
    cbn [take]. rewrite !total_rows_cons. lia.
Qed.

Lemma offset_mono frames k k' :
  (k ≤ k')%nat → (offset frames k ≤ offset frames k')%nat.
Proof.
  revert k k'. induction frames as [|g frames IH]; intros k k' Hle.
  - unfold offset. by rewrite !take_nil.
  - destruct k as [|k]; [unfold offset; simpl; unfold total_rows at 1; simpl; lia|].
    destruct k' as [|k']; [lia|].
    unfold offset in *. cbn [take]. rewrite !total_rows_cons.
    specialize (IH k k' ltac:(lia)). lia.
Qed.

Lemma assign_rows_run attrs inds (js : list nat) (i0 : nat) (t : IntensityTable) :
  (js ≠ [] → is_Some (cols attrs !! "intensity")) →
  key_CH inds ∈ ch_index t → key_ROUND inds ∈ round_index t →
  (i0 + length js ≤ sizes_features t)%nat →
  for_each js (assign_row attrs inds) (i0, t)
  = (((i0 + length js)%nat,
      set_cells t (insert_rows i0
                     (map (λ j, (key_CH inds, key_ROUND inds, intensity_of attrs j)) js)
                     (cells t))),
     Ok tt).
Proof.
  revert i0 t. induction js as [|j js IH]; intros i0 t Hcol Hc Hr Hlen.
  - simpl. unfold ret. rewrite Nat.add_0_r. by destruct t.
  - destruct Hcol as [col Hcol]; [done|].
    cbn [for_each]. unfold bind at 1.
    assert (assign_row attrs inds j (i0, t)
            = ((S i0, set_cells t (<[(i0, key_CH inds, key_ROUND inds)
                                      := intensity_of attrs j]> (cells t))), Ok tt)) as ->.
    { unfold assign_row, bind, get, lift, modify, row_item, intensity_of. simpl.
      rewrite Hcol. simpl. unfold loc_set_cell.
      rewrite decide_True by (simpl in Hlen; repeat split; [lia|done|done]).
      done. }
    rewrite IH; simpl.
    + do 2 f_equal. simpl in Hlen. lia.
    + intros _. by exists col.
    + done.
    + done.
    + unfold sizes_features in *. simpl in *. lia.
Qed.

Lemma assign_frames_run (frames : list (DataFrame * frame_key)) (i0 : nat)
    (t : IntensityTable) :
  (∀ f, f ∈ frames → (0 < nrows f.1)%nat → is_Some (cols f.1 !! "intensity")) →
  (∀ f, f ∈ frames → key_CH f.2 ∈ ch_index t ∧ key_ROUND f.2 ∈ round_index t) →
  (i0 + total_rows frames ≤ sizes_features t)%nat →
  for_each frames assign_frame (i0, t)
  = (((i0 + total_rows frames)%nat,
      set_cells t (insert_rows i0 (flat_map frame_rows frames) (cells t))),
     Ok tt).
Proof.
  revert i0 t. induction frames as [|f frames IH]; intros i0 t Hcol Hkey Hlen.
  - simpl. unfold ret, total_rows. simpl. rewrite Nat.add_0_r. by destruct t.
  - rewrite total_rows_cons in *.
    cbn [for_each flat_map]. unfold bind at 1. unfold assign_frame at 1.
    destruct (Hkey f) as [Hc Hr]; [apply elem_of_cons; by left|].
    rewrite assign_rows_run; [|
      intros Hne; apply Hcol; [apply elem_of_cons; by left|];
      destruct (nrows f.1); [done|lia] | done | done | rewrite length_seq; lia].
    rewrite IH.
    + rewrite length_seq. rewrite insert_rows_app, length_frame_rows.
      unfold set_cells. simpl. do 2 f_equal. lia.
    + intros g Hg. apply Hcol. apply elem_of_cons. by right.
    + intros g Hg. simpl. apply Hkey. apply elem_of_cons. by right.
    + rewrite length_seq. unfold sizes_features in *. simpl. lia.
Qed.

Lemma drop_present (df : DataFrame) :
  is_Some (cols df !! "spot_id") → is_Some (cols df !! "intensity") →
  ∃ fc, drop ["spot_id"; "intensity"] df = Ok fc ∧ nrows fc = nrows df.
Proof.
  intros [c1 H1] [c2 H2]. unfold drop.
  rewrite !filter_cons, filter_nil.
  rewrite decide_False by (by rewrite H1).
  rewrite decide_False by (by rewrite H2).
  by eexists.
Qed.

Lemma total_rows_sum frames :
  total_rows frames = sum_list (map nrows (map fst frames)).
Proof. unfold total_rows. by rewrite map_map. Qed.

Lemma concatenate_run frames :
  mergeable frames →
  ∃ fc,
    nrows fc = total_rows frames ∧
    concatenate_spot_attributes_to_intensities frames
    = Ok (set_cells
            (zeros fc (sorted_set (map (λ f, key_ROUND f.2) frames))
                      (sorted_set (map (λ f, key_CH f.2) frames)))
            (insert_rows 0 (flat_map frame_rows frames)
               (cells (zeros fc (sorted_set (map (λ f, key_ROUND f.2) frames))
                                (sorted_set (map (λ f, key_CH f.2) frames)))))).
Proof.
  intros (Hne & (f1 & Hf1 & Hid) & (f2 & Hf2 & Hint) & Hcol).
  destruct frames as [|f fs]; [done|].
  assert (∀ k g, g ∈ f :: fs → is_Some (cols g.1 !! k) →
          is_Some (cols (foldl concat2 f.1 (map fst fs)) !! k)) as Hall.
  { intros k g Hg Hk. apply foldl_concat2_column.
    apply elem_of_cons in Hg as [->|Hg]; [by left|].
    right. exists g.1. split; [|done]. apply list_elem_of_fmap. by exists g. }
  destruct (drop_present (foldl concat2 f.1 (map fst fs))) as (fc & Hdrop & Hn).
  { by apply (Hall _ f1). }
  { by apply (Hall _ f2). }
  exists fc. split.
  { rewrite Hn, foldl_concat2_nrows, total_rows_cons, total_rows_sum. done. }
  unfold concatenate_spot_attributes_to_intensities.
  change (map fst (f :: fs)) with (f.1 :: map fst fs).
  cbn [pd_concat rbind]. rewrite Hdrop. cbn [rbind].
  rewrite assign_frames_run.
  - done.
  - done.
  - intros g Hg. unfold zeros. cbn [ch_index round_index].
    split; apply sorted_set_elem_of, list_elem_of_fmap; by exists g.
  - unfold sizes_features. simpl.
    rewrite Hn, foldl_concat2_nrows, total_rows_cons, total_rows_sum. done.
Qed.

(** [pd.concat] refuses an empty list: no frame, no table. *)
Lemma concatenate_nothing :
  concatenate_spot_attributes_to_intensities [] = Err ValueError.
Proof. reflexivity. Qed.

(** C7: for a sequence of frames that the merge accepts, a table is produced;
    its channel and round indices hold exactly the channel and round values
    of the frames, strictly ascending, and its feature axis is as long as the
    frames have spot rows in total. *)
Theorem merged_axes_are_sorted_unions frames :
  mergeable frames →
  ∃ t, concatenate_spot_attributes_to_intensities frames = Ok t ∧
       ch_index t = sorted_set (map (λ f, key_CH f.2) frames) ∧
       round_index t = sorted_set (map (λ f, key_ROUND f.2) frames) ∧
       (∀ c, c ∈ ch_index t ↔ ∃ f, f ∈ frames ∧ key_CH f.2 = c) ∧
       (∀ r, r ∈ round_index t ↔ ∃ f, f ∈ frames ∧ key_ROUND f.2 = r) ∧
       StronglySorted Z.lt (ch_index t) ∧
       StronglySorted Z.lt (round_index t) ∧
       sizes_features t = total_rows frames.
Proof.
  intros Hm. destruct (concatenate_run frames Hm) as (fc & Hn & Hrun).
  eexists. split; [exact Hrun|]. simpl.
  split; [done|]. split; [done|].
  split; [|split; [|split; [|split]]].
  - intros c. rewrite sorted_set_elem_of, list_elem_of_fmap.
    split; [intros (f & -> & Hf); by exists f|intros (f & Hf & <-); by exists f].
  - intros r. rewrite sorted_set_elem_of, list_elem_of_fmap.
    split; [intros (f & -> & Hf); by exists f|intros (f & Hf & <-); by exists f].
  - apply sorted_set_ascending.
  - apply sorted_set_ascending.
  - done.
Qed.

(** C8: the rows of the frames become the features in concatenation order,
    row j of frame k being feature offset(k) + j; two rows never share a
    feature, so nothing is deduplicated or matched between frames; the row's
    intensity is in the cell of its frame's channel and round, and every other
    cell of the feature holds the fill value zero. *)
Theorem features_follow_concatenation_order frames :
  mergeable frames →
  ∃ t, concatenate_spot_attributes_to_intensities frames = Ok t ∧
       sizes_features t = total_rows frames ∧
       (∀ k f j, frames !! k = Some f → (j < nrows f.1)%nat →
          (offset frames k + j < sizes_features t)%nat ∧
          cells t !! ((offset frames k + j)%nat, key_CH f.2, key_ROUND f.2)
            = Some (intensity_of f.1 j) ∧
          ∀ c r, c ∈ ch_index t → r ∈ round_index t →
                 (c, r) ≠ (key_CH f.2, key_ROUND f.2) →
                 cells t !! ((offset frames k + j)%nat, c, r) = Some (Fin 0)) ∧
       (∀ k f j k' f' j',
          frames !! k = Some f → (j < nrows f.1)%nat →
          frames !! k' = Some f' → (j' < nrows f'.1)%nat →
          (k, j) ≠ (k', j') →
          (offset frames k + j)%nat ≠ (offset frames k' + j')%nat).
Proof.
  intros Hm. destruct (concatenate_run frames Hm) as (fc & Hn & Hrun).
  eexists. split; [exact Hrun|]. split; [exact Hn|]. split.
  - intros k f j Hk Hj.
    destruct (offset_bound frames k f j Hk Hj) as [Hlt Hle].
    split; [unfold sizes_features; simpl; lia|].
    cbn [set_cells cells ch_index round_index].
    pose proof (all_rows_lookup frames k f j Hk Hj) as Hrow.
    split.
    + rewrite insert_rows_lookup, decide_True by lia.
      rewrite Nat.sub_0_r, Hrow. by rewrite decide_True.
    + intros c r Hc Hr Hne.
      rewrite insert_rows_lookup, decide_True by lia.
      rewrite Nat.sub_0_r, Hrow.
      rewrite decide_False by (intros [-> ->]; done).
      rewrite zeros_lookup. rewrite decide_True; [done|].
      split; [lia|]. done.
  - intros k f j k' f' j' Hk Hj Hk' Hj' Hne Heq.
    destruct (offset_bound frames k f j Hk Hj) as [Hlt _].
    destruct (offset_bound frames k' f' j' Hk' Hj') as [Hlt' _].
    destruct (decide (k = k')) as [->|Hkk].
    + apply Hne. f_equal. lia.
    + destruct (decide (k < k')%nat).
      * pose proof (offset_mono frames (S k) k' ltac:(lia)). lia.
      * pose proof (offset_mono frames (S k') k ltac:(lia)). lia.
Qed.

(** ** The strategies of detect_spots *)

Lemma fill_frame_trace data_image M gyr cr t w :
  ∃ evs, trace (fill_frame data_image M gyr cr t w).1 = trace w ++ evs ∧
         Forall slot_event evs.
Proof.
  destruct cr as [c r].
  unfold fill_frame, bind, emit, modify, lift, on_spots. simpl.
  destruct (get_slice data_image c r) as [image|e]; simpl.
  - destruct (measure_spot_intensity image M gyr (spots w)) as [df [vs|e]]; simpl.
    + exists [GetSlice c r; WriteSlot c r]. rewrite <- app_assoc.
      split; [done|]. by repeat constructor.
    + exists [GetSlice c r]. split; [done|]. by repeat constructor.
  - exists [GetSlice c r]. split; [done|]. by repeat constructor.
Qed.

Lemma fill_trace data_image M gyr indices t w :
  ∃ evs, trace (fill data_image M gyr indices t w).1 = trace w ++ evs ∧
         Forall slot_event evs.
Proof.
  revert t w. induction indices as [|cr rest IH]; intros t w.
  - exists []. simpl. by rewrite app_nil_r.
  - cbn [fill]. unfold bind at 1.
    destruct (fill_frame_trace data_image M gyr cr t w) as (evs & Hevs & Hall).
    destruct (fill_frame data_image M gyr cr t w) as [w1 [t1|e]]; simpl in Hevs.
    + destruct (IH t1 w1) as (evs' & Hevs' & Hall').
      exists (evs ++ evs'). rewrite Hevs', Hevs, <- app_assoc.
      split; [done|]. by apply Forall_app.
    + exists evs. done.
Qed.

Lemma measure_spot_intensities_trace data_image M gyr w :
  ∃ evs, trace (measure_spot_intensities data_image M gyr w).1 = trace w ++ evs ∧
         Forall slot_event evs.
Proof.
  unfold measure_spot_intensities, bind. simpl.
  destruct (decide _).
  - exists []. unfold ret. simpl. by rewrite app_nil_r.
  - apply fill_trace.
Qed.

Lemma occurrences_slot_free (e : event) (evs : list event) :
  ¬ slot_event e → Forall slot_event evs → occurrences e evs = 0%nat.
Proof.
  intros He Hall. apply occurrences_not_elem. intros Hin.
  rewrite Forall_forall in Hall. by apply He, Hall.
Qed.

Lemma loc_set_column_axes c r column t t' :
  loc_set_column c r column t = Ok t' →
  features t' = features t ∧ ch_index t' = ch_index t ∧ round_index t' = round_index t.
Proof.
  unfold loc_set_column. repeat case_decide; try done. by intros [= <-].
Qed.

Lemma fill_frame_axes data_image M gyr cr t w w' t' :
  fill_frame data_image M gyr cr t w = (w', Ok t') →
  features t' = features t ∧ ch_index t' = ch_index t ∧ round_index t' = round_index t.
Proof.
  destruct cr as [c r].
  unfold fill_frame, bind, emit, modify, lift, on_spots. simpl.
  destruct (get_slice data_image c r) as [image|e]; simpl; [|done].
  destruct (measure_spot_intensity image M gyr (spots w)) as [df [vs|e]]; simpl; [|done].
  destruct (loc_set_column c r vs t) as [t1|e] eqn:Hset; [|done].
  intros [= _ <-]. by apply loc_set_column_axes in Hset.
Qed.

Lemma fill_axes data_image M gyr indices t w w' t' :
  fill data_image M gyr indices t w = (w', Ok t') →
  features t' = features t ∧ ch_index t' = ch_index t ∧ round_index t' = round_index t.
Proof.
  revert t w. induction indices as [|cr rest IH]; intros t w.
  - simpl. unfold ret. by intros [= _ <-].
  - cbn [fill]. intros Hrun.
    apply bind_Ok_inv in Hrun as (w1 & t1 & Hframe & Hrest).
    apply fill_frame_axes in Hframe as (Hf & Hc & Hr).
    apply IH in Hrest as (Hf' & Hc' & Hr'). by rewrite Hf', Hc', Hr'.
Qed.

(** The table of a pass has the labels of the stack as its axes and the
    spots as its features. *)
Lemma measure_spot_intensities_axes data_image M gyr w w' t :
  measure_spot_intensities data_image M gyr w = (w', Ok t) →
  features t = spots w ∧
  ch_index t = axis_labels_CH data_image ∧
  round_index t = axis_labels_ROUND data_image.
Proof.
  unfold measure_spot_intensities, bind. simpl.
  destruct (decide _).
  - unfold ret. by intros [= _ <-].
  - intros Hrun. by apply fill_axes in Hrun.
Qed.

(** C9: detect_spots follows one of two strategies, chosen by whether a
    reference image is supplied. With a reference, it runs the spot finder once
    on the reference array (max-projected first when axes are given), measures
    the spots it found across the data stack with measure_spot_intensities,
    whose channel and round axes are the labels of the data stack, and never
    calls the grouped map. Without one, it hands the spot finder to
    the grouped map of the data stack, grouped by round and channel, and merges
    the frames with concatenate_spot_attributes_to_intensities, and measures
    nothing itself. Either way the table that was produced goes through the
    transfer of physical coordinates, whose outcome is what is returned. *)
Theorem detect_spots_strategies
    find xarray max_proj squeezed_numpy transform transfer
    data_stack kwargs M gyr n_processes (tr : list event) :
  let kw := default ∅ kwargs in
  (∀ reference_image axes image found,
     reference_array xarray max_proj squeezed_numpy reference_image axes = Ok image →
     find image kw = Ok found →
     let pre := match axes with Some _ => [MaxProj] | None => [] end in
     let pass := measure_spot_intensities data_stack M gyr
                   {| spots := found; trace := tr ++ pre ++ [FindSpots] |} in
     let run := detect_spots find xarray max_proj squeezed_numpy transform transfer
                  data_stack kwargs (Some reference_image) axes M gyr n_processes tr in
     run = match pass.2 with
           | Ok table => (trace pass.1 ++ [TransferCoords], transfer data_stack table)
           | Err e => (trace pass.1, Err e)
           end ∧
     (∀ table, pass.2 = Ok table →
        features table = found ∧
        ch_index table = axis_labels_CH data_stack ∧
        round_index table = axis_labels_ROUND data_stack) ∧
     occurrences FindSpots run.1 = S (occurrences FindSpots tr) ∧
     occurrences Transform run.1 = occurrences Transform tr) ∧
  (∀ axes frames,
     transform data_stack (λ image, find image kw) [ROUND; CH] n_processes = Ok frames →
     detect_spots find xarray max_proj squeezed_numpy transform transfer
       data_stack kwargs None axes M gyr n_processes tr
     = match concatenate_spot_attributes_to_intensities frames with
       | Ok table => (tr ++ [Transform; TransferCoords], transfer data_stack table)
       | Err e => (tr ++ [Transform], Err e)
       end).
Proof.
  intros kw. split.
  - intros reference_image axes image found Himage Hfound pre pass run.
    assert (run = match pass.2 with
                  | Ok table => (trace pass.1 ++ [TransferCoords], transfer data_stack table)
                  | Err e => (trace pass.1, Err e)
                  end) as Hrun.
    { subst run pass pre. unfold detect_spots, reference_array in *.
      fold kw. unfold bind, log, modify, lift, ret, with_spots.
      destruct axes as [axes|]; simpl in *.
      - destruct (max_proj reference_image axes) as [r|]; [|done]. simpl in *.
        rewrite Himage, Hfound. rewrite <- app_assoc. simpl.
        destruct (measure_spot_intensities _ _ _ _) as [w [table|e]]; done.
      - injection Himage as <-. rewrite Hfound.
        destruct (measure_spot_intensities _ _ _ _) as [w [table|e]]; done. }
    split; [exact Hrun|]. split.
    { intros table Htable. subst pass.
      destruct (measure_spot_intensities _ _ _ _) as [w r] eqn:Hpass.
      simpl in Htable. subst r.
      by apply measure_spot_intensities_axes in Hpass. }
    destruct (measure_spot_intensities_trace data_stack M gyr
                {| spots := found; trace := tr ++ pre ++ [FindSpots] |})
      as (evs & Hevs & Hall).
    fold pass in Hevs. simpl in Hevs.
    assert (∃ post, run.1 = tr ++ pre ++ [FindSpots] ++ evs ++ post ∧
                    (post = [] ∨ post = [TransferCoords])) as (post & -> & Hpost).
    { rewrite Hrun. destruct pass.2; simpl; rewrite Hevs.
      - exists [TransferCoords]. rewrite <- !app_assoc. auto.
      - exists []. rewrite app_nil_r, <- !app_assoc. auto. }
    rewrite !occurrences_app.
    rewrite !(occurrences_slot_free _ evs) by (done || (intros []; done)).
    subst pre. destruct axes; destruct Hpost as [-> | ->];
      rewrite ?occurrences_cons, ?occurrences_nil;
      repeat case_decide; try congruence; split; lia.
  - intros axes frames Hframes.
    unfold detect_spots. fold kw. unfold bind, log, modify, lift. simpl.
    rewrite Hframes.
    destruct (concatenate_spot_attributes_to_intensities frames); simpl;
      [by rewrite <- app_assoc|done].
Qed.

(** ** What measure_spot_intensity needs *)

Lemma spot_radius_state gyr df s r :
  spot_radius gyr df = (s, r) → s = df.
Proof.
  unfold spot_radius, bind, num_rows, getitem, lift, ret.
  destruct (cols df !! SPOT_RADIUS); [|by intros [= <- _]].
  destruct gyr.
  - destruct (astype_int _ _); by intros [= <- _].
  - destruct (astype_int _ _); by intros [= <- _].
Qed.

Lemma set_bounds_nrows radius vm df :
  nrows (set_bounds radius vm df).1 = nrows df.
Proof.
  destruct vm as [v n]. unfold set_bounds, bind, getitem, setitem, modify. simpl.
  destruct (cols df !! v); [|done]. simpl.
  destruct (<[_ := _]> (cols df) !! v); done.
Qed.

Lemma for_each_set_bounds_nrows radius axes df :
  nrows (for_each axes (set_bounds radius) df).1 = nrows df.
Proof.
  revert df. induction axes as [|vm axes IH]; intros df; [done|].
  cbn [for_each]. unfold bind.
  pose proof (set_bounds_nrows radius vm df) as H.
  destruct (set_bounds radius vm df) as [s [[]|e]]; simpl in *; [|done].
  by rewrite IH.
Qed.

Lemma select_boxes_inv df s boxes :
  select_boxes df = (s, Ok boxes) →
  s = df ∧
  ∀ k, k ∈ ["z_min"; "z_max"; "y_min"; "y_max"; "x_min"; "x_max"] →
       is_Some (cols df !! k).
Proof.
  unfold select_boxes, bind, num_rows, getitem, lift, ret. simpl.
  destruct (cols df !! "z_min") eqn:E1; [|done].
  destruct (cols df !! "z_max") eqn:E2; [|done].
  destruct (cols df !! "y_min") eqn:E3; [|done].
  destruct (cols df !! "y_max") eqn:E4; [|done].
  destruct (cols df !! "x_min") eqn:E5; [|done].
  destruct (cols df !! "x_max") eqn:E6; [|done].
  repeat (destruct (astype_int _ _); [|done]).
  intros [= <- _]. split; [done|].
  intros k Hk. rewrite !elem_of_cons in Hk.
  destruct Hk as [->|[->|[->|[->|[->|[->|Hk]]]]]]; eauto.
  by apply elem_of_nil in Hk.
Qed.

Lemma select_boxes_state df s r : select_boxes df = (s, r) → s = df.
Proof.
  unfold select_boxes, bind, num_rows, getitem, lift, ret. simpl.
  repeat (destruct (cols df !! _); [|by intros [= <- _]]).
  repeat (destruct (astype_int _ _); [|by intros [= <- _]]).
  by intros [= <- _].
Qed.

(** Three slices on an image of fewer than three axes: IndexError. *)
Lemma apply_rows_short image M (boxes : nat → box_row) (n : nat) :
  (length (shape image) < 3)%nat → (0 < n)%nat →
  is_err (map_result (λ i, fn image M (boxes i)) (seq 0 n)).
Proof.
  intros Hshape Hn. apply (map_result_Err _ _ 0%nat).
  - apply elem_of_seq. lia.
  - unfold fn, getitem3.
    destruct (shape image) as [|? [|? [|? ?]]]; simpl in *; try done; lia.
Qed.

Lemma set_bounds_loop_inv radius df s nz ny nx rest :
  for_each (zip ["z"; "y"; "x"] (nz :: ny :: nx :: rest)) (set_bounds radius) df
    = (s, Ok tt) →
  ∃ zc yc xc,
    cols df !! "z" = Some zc ∧ cols df !! "y" = Some yc ∧ cols df !! "x" = Some xc ∧
    s = with_box_columns df radius zc yc xc nz ny nx.
Proof.
  cbn [zip zip_with for_each].
  unfold set_bounds, bind, getitem, setitem, modify, ret. cbv [String.append]. simpl.
  destruct (cols df !! "z") as [zc|] eqn:Hz; [|done]. simpl.
  rewrite !lookup_insert_ne by done. rewrite Hz. simpl.
  rewrite !lookup_insert_ne by done.
  destruct (cols df !! "y") as [yc|] eqn:Hy; [|done]. simpl.
  rewrite !lookup_insert_ne by done. rewrite Hy. simpl.
  rewrite !lookup_insert_ne by done.
  destruct (cols df !! "x") as [xc|] eqn:Hx; [|done]. simpl.
  rewrite !lookup_insert_ne by done. rewrite Hx. simpl.
  intros [= <-]. by exists zc, yc, xc.
Qed.

Lemma loop_missing_z radius df n0 rest :
  cols df !! "z" = None →
  is_err (for_each (zip ["z"; "y"; "x"] (n0 :: rest)) (set_bounds radius) df).2.
Proof.
  intros Hz. cbn [zip zip_with for_each].
  apply bind_err_l. unfold set_bounds. apply bind_err_l.
  unfold getitem. simpl. by rewrite Hz.
Qed.

(** C10, counterexample: a table without rows that already carries the box
    columns (it went through a call on a volume) and a 2-D image. The loop
    writes the z and y columns from the two axes, the x columns are the old
    ones, no row is indexed: the call returns the empty result, no error. *)
Lemma two_axes_accepted_without_rows :
  shape flat_image = [4; 4]%nat ∧
  (measure_spot_intensity bright_pixel np_max false no_spots).2 = Ok [] ∧
  nrows measured_no_spots = 0%nat ∧
  (measure_spot_intensity flat_image np_max false measured_no_spots).2 = Ok [] ∧
  ¬ is_err (measure_spot_intensity flat_image np_max false measured_no_spots).2.
Proof.
  split; [reflexivity|]. split; [reflexivity|]. split; [reflexivity|].
  assert ((measure_spot_intensity flat_image np_max false measured_no_spots).2 = Ok [])
    as H by reflexivity.
  split; [exact H|]. rewrite H. simpl. tauto.
Qed.

(** C10, amended: with at least one spot row, an image of fewer than three
    axes makes the call fail; a table without a z column makes it fail when
    the image has an axis or the table a row; a call that returns gives one
    value per row and leaves the six box columns on the caller's table, which
    for an image of at least three axes are the columns this call computed
    from the z, y, x and radius columns. *)
Theorem measure_spot_intensity_requirements image M gyr df :
  let run := measure_spot_intensity image M gyr df in
  ((length (shape image) < 3)%nat → (0 < nrows df)%nat → is_err run.2) ∧
  (cols df !! "z" = None → shape image ≠ [] ∨ (0 < nrows df)%nat → is_err run.2) ∧
  (∀ vs, run.2 = Ok vs →
     length vs = nrows df ∧ nrows run.1 = nrows df ∧
     ∀ k, k ∈ ["z_min"; "z_max"; "y_min"; "y_max"; "x_min"; "x_max"] →
          is_Some (cols run.1 !! k)) ∧
  (∀ vs nz ny nx rest, run.2 = Ok vs → shape image = nz :: ny :: nx :: rest →
     ∃ radius zc yc xc,
       spot_radius gyr df = (df, Ok radius) ∧
       cols df !! "z" = Some zc ∧ cols df !! "y" = Some yc ∧ cols df !! "x" = Some xc ∧
       run.1 = with_box_columns df radius zc yc xc nz ny nx).
Proof.
  intros run.
  assert ((length (shape image) < 3)%nat → (0 < nrows df)%nat → is_err run.2) as Hshort.
  { intros Hshape Hn. subst run. unfold measure_spot_intensity.
    apply bind_is_err. intros s1 radius H1. apply spot_radius_state in H1 as ->.
    apply bind_is_err. intros s2 [] H2.
    assert (nrows s2 = nrows df) as Hn2.
    { pose proof (for_each_set_bounds_nrows radius
                    (zip ["z"; "y"; "x"] (shape image)) df) as H.
      by rewrite H2 in H. }
    apply bind_is_err. intros s3 boxes H3. apply select_boxes_state in H3 as ->.
    unfold bind, num_rows, lift. simpl. apply apply_rows_short; [done|lia]. }
  assert (∀ vs, run.2 = Ok vs →
          ∃ radius s2 boxes,
            spot_radius gyr df = (df, Ok radius) ∧
            for_each (zip ["z"; "y"; "x"] (shape image)) (set_bounds radius) df
              = (s2, Ok tt) ∧
            select_boxes s2 = (s2, Ok boxes) ∧
            run = (s2, map_result (λ i, fn image M (boxes i)) (seq 0 (nrows s2))))
    as Hinv.
  { intros vs Hvs. subst run.
    destruct (measure_spot_intensity image M gyr df) as [s r] eqn:Hrun.
    simpl in Hvs. subst r. unfold measure_spot_intensity in Hrun.
    apply bind_Ok_inv in Hrun as (s1 & radius & H1 & Hrun).
    pose proof (spot_radius_state _ _ _ _ H1) as ->.
    apply bind_Ok_inv in Hrun as (s2 & [] & H2 & Hrun).
    apply bind_Ok_inv in Hrun as (s3 & boxes & H3 & Hrun).
    pose proof (select_boxes_state _ _ _ H3) as ->.
    unfold bind, num_rows, lift in Hrun. simpl in Hrun. injection Hrun as <- Hvs.
    exists radius, s2, boxes. by rewrite Hvs. }
  split; [exact Hshort|]. split; [|split].
  - intros Hz [Hshape|Hn].
    + subst run. unfold measure_spot_intensity.
      apply bind_is_err. intros s1 radius H1. apply spot_radius_state in H1 as ->.
      destruct (shape image) as [|n0 rest]; [done|].
      by apply bind_err_l, loop_missing_z.
    + destruct (decide (length (shape image) < 3)%nat) as [Hlt|Hge]; [by apply Hshort|].
      subst run. unfold measure_spot_intensity.
      apply bind_is_err. intros s1 radius H1. apply spot_radius_state in H1 as ->.
      destruct (shape image) as [|n0 rest]; [simpl in Hge; lia|].
      by apply bind_err_l, loop_missing_z.
  - intros vs Hvs.
    destruct (Hinv vs Hvs) as (radius & s2 & boxes & H1 & H2 & H3 & Hrun).
    assert (nrows s2 = nrows df) as Hn2.
    { pose proof (for_each_set_bounds_nrows radius
                    (zip ["z"; "y"; "x"] (shape image)) df) as H.
      by rewrite H2 in H. }
    rewrite Hrun in Hvs |- *. cbn [fst snd] in Hvs |- *.
    split; [|split; [done|]].
    + apply map_result_length in Hvs. by rewrite length_seq, Hn2 in Hvs.
    + by apply (select_boxes_inv s2 s2 boxes).
  - intros vs nz ny nx rest Hvs Hshape.
    destruct (Hinv vs Hvs) as (radius & s2 & boxes & H1 & H2 & H3 & Hrun).
    rewrite Hshape in H2.
    apply set_bounds_loop_inv in H2 as (zc & yc & xc & Hz & Hy & Hx & ->).
    exists radius, zc, yc, xc. rewrite Hrun. done.
Qed.

(** ** The properties on the example stack *)

(** Radius one at (0, 2, 2): the box is the bright pixel alone. *)
Lemma zero_radius_box_empty_unit_radius_box_one_pixel_witness :
  ∃ a, getitem3 bright_pixel 0 1 2 3 2 3 = Ok a ∧
       shape a = [1; 1; 1]%nat ∧
       item a [0; 0; 0]%nat = Fin 9.
Proof.
  destruct (zero_radius_box_empty_unit_radius_box_one_pixel bright_pixel np_max
              (one_spot 1) _ _ _ _ 1 4 4 0 (one_spot_table 1) eq_refl)
    as [_ Hone]; try (simpl; lia).
  destruct (Hone eq_refl) as (_ & _ & _ & a & Ha & Hshape & Hitem & _).
  exists a. split; [exact Ha|]. split; [exact Hshape|exact Hitem].
Defined.

(** No spot, and a stack that raises when sliced: the empty table is returned. *)
Lemma no_spots_no_slice_witness :
  ∃ t, measure_spot_intensities unreadable_stack np_max false
         {| spots := no_spots; trace := [] |}
       = ({| spots := no_spots; trace := [] |}, Ok t) ∧
       sizes_features t = 0%nat ∧
       cells t = ∅.
Proof.
  destruct (no_spots_no_slice unreadable_stack np_max false
              {| spots := no_spots; trace := [] |} eq_refl)
    as (t & Hrun & Hsize & Hcells & _).
  exists t. split; [exact Hrun|]. split; [exact Hsize|exact Hcells].
Defined.



Lemma detected_frames_mergeable (frames : list (DataFrame * frame_key)) :
  frames ≠ [] →
  Forall (λ f, cols f.1 = cols (detected 0) ∨ ∃ q, f.1 = detected q) frames →
  mergeable frames.
Proof.
  intros Hne Hall.
  assert (∀ f k, f ∈ frames → k = "spot_id" ∨ k = "intensity" →
          is_Some (cols f.1 !! k)) as Hcol.
  { intros f k Hf Hk. rewrite Forall_forall in Hall.
    destruct (Hall f Hf) as [->|[q ->]]; destruct Hk as [->| ->]; by eexists. }
  destruct frames as [|f frames]; [done|].
  split; [done|].
  split; [exists f; split; [apply elem_of_cons; by left|]; apply Hcol;
          [apply elem_of_cons; by left|by left]|].
  split; [exists f; split; [apply elem_of_cons; by left|]; apply Hcol;
          [apply elem_of_cons; by left|by right]|].
  intros g Hg _. apply Hcol; [done|by right].
Qed.

(** Spots found in (channel 1, round 0) and (channel 0, round 0): the channel
    index is [0; 1], and there are two features. *)
Lemma merged_axes_are_sorted_unions_witness :
  ∃ t, concatenate_spot_attributes_to_intensities
         [(detected 9, mkKey 1 0); (detected 5, mkKey 0 0)] = Ok t ∧
       ch_index t = [0; 1] ∧ round_index t = [0] ∧ sizes_features t = 2%nat.
Proof.
  destruct (merged_axes_are_sorted_unions
              [(detected 9, mkKey 1 0); (detected 5, mkKey 0 0)])
    as (t & Hrun & Hch & Hround & _ & _ & _ & _ & Hsize).
  { apply detected_frames_mergeable; [done|].
    constructor; [right; by eexists|].
    constructor; [right; by eexists|constructor]. }
  exists t. split; [exact Hrun|]. split; [exact Hch|]. split; [exact Hround|exact Hsize].
Defined.

(** Channel 0 yields one spot of intensity 9 and channel 1 none: one feature,
    9 at (0, channel 0, round 0) and the fill value at (0, channel 1, round 0). *)
Lemma features_follow_concatenation_order_witness :
  ∃ t, concatenate_spot_attributes_to_intensities
         [(detected 9, mkKey 0 0); (detected_nothing, mkKey 1 0)] = Ok t ∧
       sizes_features t = 1%nat ∧
       cells t !! (0%nat, 0, 0) = Some (Fin 9) ∧
       cells t !! (0%nat, 1, 0) = Some (Fin 0).
Proof.
  destruct (features_follow_concatenation_order
              [(detected 9, mkKey 0 0); (detected_nothing, mkKey 1 0)])
    as (t & Hrun & Hsize & Hcells & _).
  { apply detected_frames_mergeable; [done|].
    constructor; [right; by eexists|].
    constructor; [by left|constructor]. }
  exists t. split; [exact Hrun|]. split; [exact Hsize|].
  destruct (Hcells 0%nat (detected 9, mkKey 0 0) 0%nat eq_refl ltac:(simpl; lia))
    as (_ & Hcell & Hfill).
  split; [exact Hcell|].
  apply (Hfill 1 0).
  - injection Hrun as <-. simpl. repeat constructor.
  - injection Hrun as <-. simpl. repeat constructor.
  - discriminate.
Defined.

(** The end-to-end runs: with the stack as its own reference, the finder runs
    once and every frame is measured before the transfer; without a reference
    the grouped map and the transfer are the only calls. *)
Lemma detect_spots_strategies_witness :
  let find := λ (_ : ndarray) (_ : gmap string Z), Ok (one_spot 1) in
  let transform := λ (_ : ImageStack) (_ : ndarray → result DataFrame)
                     (_ : list Axes) (_ : option nat),
    Ok [(detected 9, mkKey 0 0); (detected_nothing, mkKey 1 0)] in
  let run := λ reference,
    detect_spots find (λ _, bright_pixel) (λ s _, Ok s) (λ _ _, Ok bright_pixel)
      transform (λ _ t, Ok t) two_channels None reference None np_max false None [] in
  (run (Some two_channels)).1
    = [FindSpots; GetSlice 0 0; WriteSlot 0 0; GetSlice 1 0; WriteSlot 1 0;
       TransferCoords] ∧
  (run None).1 = [Transform; TransferCoords].
Proof.
  intros find transform run.
  destruct (detect_spots_strategies find (λ _, bright_pixel) (λ s _, Ok s)
              (λ _ _, Ok bright_pixel) transform (λ _ t, Ok t)
              two_channels None np_max false None []) as [Href Hind].
  split.
  - destruct (Href two_channels None bright_pixel (one_spot 1) eq_refl eq_refl)
      as (Hrun & _).
    subst run. cbv beta. rewrite Hrun. reflexivity.
  - subst run. cbv beta. rewrite (Hind None _ eq_refl). reflexivity.
Defined.

(** One spot and a 2-D image: the call fails. *)
Lemma measure_spot_intensity_requirements_witness :
  is_err (measure_spot_intensity flat_image np_max false (one_spot 1)).2.
Proof.
  destruct (measure_spot_intensity_requirements flat_image np_max false (one_spot 1))
    as (Hshort & _).
  apply Hshort; simpl; lia.
Defined.

(** * Further properties of the code *)

(** ** measure_spot_intensity: what it leaves alone *)

Lemma set_bounds_cols radius v n df k :
  k ≠ v +:+ "_min" → k ≠ v +:+ "_max" →
  cols (set_bounds radius (v, n) df).1 !! k = cols df !! k.
Proof.
  intros Hmin Hmax. unfold set_bounds, bind, getitem, setitem, modify. simpl.
  destruct (cols df !! v); [|done]. simpl.
  destruct (<[_ := _]> (cols df) !! v); simpl.
  - by rewrite !lookup_insert_ne.
  - by rewrite lookup_insert_ne.
Qed.

Lemma for_each_set_bounds_cols radius axes df k :
  Forall (λ vm, k ≠ vm.1 +:+ "_min" ∧ k ≠ vm.1 +:+ "_max") axes →
  cols (for_each axes (set_bounds radius) df).1 !! k = cols df !! k.
Proof.
  revert df. induction axes as [|[v n] axes IH]; intros df Hall; [done|].
  apply Forall_cons in Hall as [[Hmin Hmax] Hall]. simpl in Hmin, Hmax.
  cbn [for_each]. unfold bind.
  pose proof (set_bounds_cols radius v n df k Hmin Hmax) as H.
  destruct (set_bounds radius (v, n) df) as [s [[]|e]]; simpl in *; [|done].
  by rewrite IH.
Qed.

Lemma zip_axes_names (dims : list nat) (k : string) :
  k ∉ box_columns →
  Forall (λ vm : string * nat, k ≠ vm.1 +:+ "_min" ∧ k ≠ vm.1 +:+ "_max")
         (zip ["z"; "y"; "x"] dims).
Proof.
  intros Hk.
  assert (∀ b, b ∈ box_columns → k ≠ b) as Hne by (intros b Hb ->; done).
  unfold box_columns in Hne.
  destruct dims as [|a [|b [|c rest]]]; cbn [zip zip_with];
    repeat (constructor; [split; apply Hne; cbv [String.append]; simpl;
                          repeat constructor|]);
    constructor.
Qed.

(** The table after a call is the table after the loop, or the table as it
    was when the radius could not be computed. *)
Lemma measure_spot_intensity_state image M gyr df :
  (measure_spot_intensity image M gyr df).1 = df ∨
  ∃ radius, (spot_radius gyr df).2 = Ok radius ∧
            (measure_spot_intensity image M gyr df).1
            = (for_each (zip ["z"; "y"; "x"] (shape image)) (set_bounds radius) df).1.
Proof.
  unfold measure_spot_intensity, bind.
  destruct (spot_radius gyr df) as [s [radius|e]] eqn:Hr;
    apply spot_radius_state in Hr as Hs; subst s; [|by left].
  right. exists radius. split; [done|].
  destruct (for_each _ _ df) as [s2 [[]|e]]; [|done].
  destruct (select_boxes s2) as [s3 [boxes|e]] eqn:Hb;
    apply select_boxes_state in Hb as ->; done.
Qed.

Lemma measure_spot_intensity_frame image M gyr df :
  nrows (measure_spot_intensity image M gyr df).1 = nrows df ∧
  ∀ k, k ∉ box_columns →
       cols (measure_spot_intensity image M gyr df).1 !! k = cols df !! k.
Proof.
  destruct (measure_spot_intensity_state image M gyr df) as [->|(radius & _ & ->)].
  - done.
  - split; [apply for_each_set_bounds_nrows|].
    intros k Hk. apply for_each_set_bounds_cols. by apply zip_axes_names.
Qed.

(** X1: whether it returns or raises, a call keeps the number of rows of the
    caller's table and every column other than the six box columns. *)
Theorem measure_spot_intensity_keeps_other_columns image M gyr df :
  nrows (measure_spot_intensity image M gyr df).1 = nrows df ∧
  ∀ k, k ∉ box_columns →
       cols (measure_spot_intensity image M gyr df).1 !! k = cols df !! k.
Proof. apply measure_spot_intensity_frame. Qed.

(** ** measure_spot_intensity: the radius is checked before anything is written *)

Lemma map_float_to_int_error (f : nat → float) (l : list nat) (e : exn) :
  map_result (λ i, float_to_int (f i)) l = Err e → e = ValueError.
Proof.
  induction l as [|i l IH]; [done|]. simpl.
  destruct (f i) as [q|]; simpl; [|by intros [= <-]].
  destruct (map_result _ l); [done|]. simpl. intros [= <-]. by apply IH.
Qed.

Lemma astype_int_nan_error (n : nat) (f : nat → float) (i : nat) :
  (i < n)%nat → f i = NaN → astype_int n (FloatCol f) = Err ValueError.
Proof.
  intros Hi Hf. pose proof (astype_int_nan n f i Hi Hf) as Herr.
  simpl in *. destruct (map_result _ _) as [l|e] eqn:Hmap; [done|].
  apply map_float_to_int_error in Hmap as ->. done.
Qed.

(** X2: a table without a radius column makes the call raise KeyError, and a
    radius that is NaN in some row makes it raise ValueError (pandas does not
    cast NaN to an integer), under either radius policy; in both cases the
    caller's table is exactly as it was, no box column having been written. *)
Theorem radius_checked_before_any_write image M gyr df :
  (cols df !! SPOT_RADIUS = None →
     measure_spot_intensity image M gyr df = (df, Err (KeyError SPOT_RADIUS))) ∧
  (∀ f i, cols df !! SPOT_RADIUS = Some (FloatCol f) → (i < nrows df)%nat → f i = NaN →
     measure_spot_intensity image M gyr df = (df, Err ValueError)).
Proof.
  split.
  - intros Hr. unfold measure_spot_intensity, spot_radius, bind, num_rows, getitem.
    by rewrite Hr.
  - intros f i Hr Hi Hf.
    unfold measure_spot_intensity, spot_radius, bind, num_rows, getitem, lift.
    rewrite Hr. destruct gyr.
    + unfold np_ceil. rewrite (astype_int_nan_error _ _ i Hi); [done|].
      simpl. by rewrite Hf.
    + by rewrite (astype_int_nan_error _ _ i Hi Hf).
Qed.

(** A table whose radius is NaN: the call raises and writes nothing. *)
Lemma radius_checked_before_any_write_witness :
  measure_spot_intensity bright_pixel np_max true
    {| nrows := 1; cols := <["radius" := FloatCol (λ _, NaN)]> (cols (one_spot 1)) |}
  = ({| nrows := 1; cols := <["radius" := FloatCol (λ _, NaN)]> (cols (one_spot 1)) |},
     Err ValueError).
Proof.
  destruct (radius_checked_before_any_write bright_pixel np_max true
              {| nrows := 1;
                 cols := <["radius" := FloatCol (λ _, NaN)]> (cols (one_spot 1)) |})
    as [_ Hnan].
  apply (Hnan (λ _, NaN) 0%nat); [reflexivity|simpl; lia|reflexivity].
Defined.

(** ** measure_spot_intensity: box columns of earlier calls do not matter *)

Lemma not_box_column (k : string) :
  k ∈ ["z"; "y"; "x"; SPOT_RADIUS] → k ∉ box_columns.
Proof.
  unfold box_columns, SPOT_RADIUS. intros Hk Hb.
  repeat (apply elem_of_cons in Hk as [->|Hk];
          [repeat (apply elem_of_cons in Hb as [Hb|Hb]; [done|]);
           by apply elem_of_nil in Hb|]).
  by apply elem_of_nil in Hk.
Qed.

Lemma spot_radius_same gyr df df' :
  same_spots df df' → (spot_radius gyr df).2 = (spot_radius gyr df').2.
Proof.
  intros [Hn Hcols].
  unfold spot_radius, bind, num_rows, getitem, lift, ret. rewrite <- Hn.
  rewrite <- (Hcols SPOT_RADIUS) by (apply not_box_column; set_solver).
  destruct (cols df !! SPOT_RADIUS); [|done].
  destruct gyr; by destruct (astype_int _ _).
Qed.

(** The loop over an image of at least three axes, by the columns it finds. *)
Lemma set_bounds_loop_cases radius df nz ny nx rest :
  for_each (zip ["z"; "y"; "x"] (nz :: ny :: nx :: rest)) (set_bounds radius) df
  = match cols df !! "z", cols df !! "y", cols df !! "x" with
    | Some zc, Some yc, Some xc =>
        (with_box_columns df radius zc yc xc nz ny nx, Ok tt)
    | Some zc, Some yc, None =>
        ({| nrows := nrows df;
            cols := <["y_max" := clip_upper (col_add yc radius) (Z.of_nat ny)]>
                   (<["y_min" := clip_lower (col_sub yc (col_sub_scalar radius 1)) 0]>
                   (<["z_max" := clip_upper (col_add zc radius) (Z.of_nat nz)]>
                   (<["z_min" := clip_lower (col_sub zc (col_sub_scalar radius 1)) 0]>
                      (cols df)))) |},
         Err (KeyError "x"))
    | Some zc, None, _ =>
        ({| nrows := nrows df;
            cols := <["z_max" := clip_upper (col_add zc radius) (Z.of_nat nz)]>
                   (<["z_min" := clip_lower (col_sub zc (col_sub_scalar radius 1)) 0]>
                      (cols df)) |},
         Err (KeyError "y"))
    | None, _, _ => (df, Err (KeyError "z"))
    end.
Proof.
  cbn [zip zip_with for_each].
  unfold set_bounds, bind, getitem, setitem, modify, ret. cbv [String.append]. simpl.
  destruct (cols df !! "z") as [zc|] eqn:Hz; [|done]. simpl.
  rewrite !lookup_insert_ne by done. rewrite Hz. simpl.
  rewrite !lookup_insert_ne by done.
  destruct (cols df !! "y") as [yc|] eqn:Hy; [|done]. simpl.
  rewrite !lookup_insert_ne by done. rewrite Hy. simpl.
  rewrite !lookup_insert_ne by done.
  destruct (cols df !! "x") as [xc|] eqn:Hx; [|done]. simpl.
  rewrite !lookup_insert_ne by done. rewrite Hx. simpl. done.
Qed.

Lemma select_boxes_same s s' :
  nrows s = nrows s' →
  (∀ k, k ∈ box_columns → cols s !! k = cols s' !! k) →
  (select_boxes s).2 = (select_boxes s').2.
Proof.
  intros Hn Hcols. unfold select_boxes, bind, num_rows, getitem, lift, ret. simpl.
  rewrite <- Hn.
  rewrite <- !Hcols by (unfold box_columns; set_solver).
  repeat (destruct (cols s !! _); [|done]).
  repeat (destruct (astype_int _ _); [|done]). done.
Qed.

Lemma with_box_columns_same df df' radius zc yc xc nz ny nx :
  same_spots df df' →
  with_box_columns df radius zc yc xc nz ny nx
  = with_box_columns df' radius zc yc xc nz ny nx.
Proof.
  intros [Hn Hcols]. unfold with_box_columns. rewrite Hn. f_equal.
  apply map_eq. intros k.
  destruct (decide (k ∈ box_columns)) as [Hk|Hk].
  - unfold box_columns in Hk. rewrite !elem_of_cons in Hk.
    destruct Hk as [->|[->|[->|[->|[->|[->|Hk]]]]]];
      [..|by apply elem_of_nil in Hk];
      repeat (first [rewrite lookup_insert_eq | rewrite lookup_insert_ne by done]);
      done.
  - assert (∀ b, b ∈ box_columns → b ≠ k) as Hne by (intros b Hb ->; done).
    unfold box_columns in Hne.
    rewrite !lookup_insert_ne by (apply Hne; set_solver). by apply Hcols.
Qed.

Lemma measure_spot_intensity_same_spots image M gyr df df' nz ny nx rest :
  shape image = nz :: ny :: nx :: rest →
  same_spots df df' →
  (measure_spot_intensity image M gyr df).2 = (measure_spot_intensity image M gyr df').2 ∧
  (∀ vs, (measure_spot_intensity image M gyr df).2 = Ok vs →
         (measure_spot_intensity image M gyr df).1
         = (measure_spot_intensity image M gyr df').1).
Proof.
  intros Hshape Hsame.
  pose proof (spot_radius_same gyr df df' Hsame) as Hrad.
  destruct Hsame as [Hn Hcols].
  unfold measure_spot_intensity, bind. rewrite Hshape.
  destruct (spot_radius gyr df) as [s [radius|e]] eqn:H1;
    apply spot_radius_state in H1 as ->;
    destruct (spot_radius gyr df') as [s' [radius'|e']] eqn:H1';
    apply spot_radius_state in H1' as ->; simpl in Hrad; try done.
  - injection Hrad as <-. rewrite !set_bounds_loop_cases.
    rewrite <- (Hcols "z"), <- (Hcols "y"), <- (Hcols "x")
      by (apply not_box_column; set_solver).
    destruct (cols df !! "z") as [zc|]; [|done].
    destruct (cols df !! "y") as [yc|]; [|done].
    destruct (cols df !! "x") as [xc|]; [|done].
    rewrite <- (with_box_columns_same df df') by done. done.
  - by injection Hrad as <-.
Qed.

(** X3: on an image of at least three axes the outcome of a call does not
    depend on box columns that are already on the table: two tables with the
    same rows that differ at most in their box columns give the same values or
    the same exception, and after a call that returns they are the same table. *)
Theorem box_columns_of_earlier_calls_do_not_matter image M gyr df df' nz ny nx rest :
  shape image = nz :: ny :: nx :: rest →
  same_spots df df' →
  (measure_spot_intensity image M gyr df).2 = (measure_spot_intensity image M gyr df').2 ∧
  (∀ vs, (measure_spot_intensity image M gyr df).2 = Ok vs →
         (measure_spot_intensity image M gyr df).1
         = (measure_spot_intensity image M gyr df').1).
Proof. apply measure_spot_intensity_same_spots. Qed.

(** X4: measuring again on the same image is idempotent: after a call that
    returned on an image of at least three axes, a second call on the table it
    left returns the same values and leaves the table as it is. *)
Theorem measure_spot_intensity_idempotent image M gyr df nz ny nx rest vs :
  shape image = nz :: ny :: nx :: rest →
  (measure_spot_intensity image M gyr df).2 = Ok vs →
  measure_spot_intensity image M gyr (measure_spot_intensity image M gyr df).1
  = ((measure_spot_intensity image M gyr df).1, Ok vs).
Proof.
  intros Hshape Hvs.
  assert (same_spots df (measure_spot_intensity image M gyr df).1) as Hsame.
  { destruct (measure_spot_intensity_frame image M gyr df) as [Hn Hcols].
    split; [done|]. intros k Hk. by rewrite Hcols. }
  destruct (measure_spot_intensity_same_spots image M gyr df _ nz ny nx rest
              Hshape Hsame) as [Hres Hstate].
  specialize (Hstate vs Hvs).
  destruct (measure_spot_intensity image M gyr (measure_spot_intensity image M gyr df).1)
    as [s2 r2].
  simpl in *. congruence.
Qed.

(** Box columns left by a call under the other policy on another frame do not
    change what a call measures. *)
Lemma box_columns_of_earlier_calls_do_not_matter_witness :
  (measure_spot_intensity bright_pixel np_max false (one_spot 1)).2
  = (measure_spot_intensity bright_pixel np_max false
       (measure_spot_intensity dim_frame np_max true (one_spot 1)).1).2.
Proof.
  destruct (box_columns_of_earlier_calls_do_not_matter bright_pixel np_max false
              (one_spot 1) (measure_spot_intensity dim_frame np_max true (one_spot 1)).1
              1 4 4 [] eq_refl) as [Hres _].
  - destruct (measure_spot_intensity_frame dim_frame np_max true (one_spot 1))
      as [Hn Hcols].
    split; [by rewrite Hn|]. intros k Hk. by rewrite Hcols.
  - exact Hres.
Defined.

Lemma measure_spot_intensity_idempotent_witness :
  measure_spot_intensity bright_pixel np_max false
    (measure_spot_intensity bright_pixel np_max false (one_spot 1)).1
  = ((measure_spot_intensity bright_pixel np_max false (one_spot 1)).1, Ok [Fin 9]).
Proof.
  apply (measure_spot_intensity_idempotent bright_pixel np_max false (one_spot 1)
           1 4 4 [] [Fin 9] eq_refl eq_refl).
Defined.

(** ** measure_spot_intensity: the box is centred on the spot *)




(** ** measure_spot_intensity: a larger radius gives a larger box *)





(** ** measure_spot_intensity with np.max, the default measurement *)








(** ** measure_spot_intensities: the caller's table, and failures *)

Lemma fill_frame_spots data_image M gyr cr t w :
  same_spots (spots w) (spots (fill_frame data_image M gyr cr t w).1).
Proof.
  destruct cr as [c r].
  unfold fill_frame, bind, emit, modify, lift, on_spots. simpl.
  destruct (get_slice data_image c r) as [image|e]; simpl; [|by split].
  destruct (measure_spot_intensity_frame image M gyr (spots w)) as [Hn Hcols].
  destruct (measure_spot_intensity image M gyr (spots w)) as [df [vs|e]]; simpl in *;
    (split; [done|]); intros k Hk; by rewrite Hcols.
Qed.

Lemma same_spots_trans df1 df2 df3 :
  same_spots df1 df2 → same_spots df2 df3 → same_spots df1 df3.
Proof.
  intros [Hn Hc] [Hn' Hc']. split; [congruence|].
  intros k Hk. by rewrite Hc, Hc'.
Qed.

Lemma fill_spots data_image M gyr indices t w :
  same_spots (spots w) (spots (fill data_image M gyr indices t w).1).
Proof.
  revert t w. induction indices as [|cr rest IH]; intros t w; [by split|].
  cbn [fill]. unfold bind.
  pose proof (fill_frame_spots data_image M gyr cr t w) as H1.
  destruct (fill_frame data_image M gyr cr t w) as [w1 [t1|e]]; simpl in *; [|done].
  eapply same_spots_trans; [exact H1|apply IH].
Qed.

(** X8: whatever a pass does, returning or raising, it leaves the caller's
    spots table with the rows it had and with every column other than the six
    box columns unchanged. *)
Theorem measure_spot_intensities_keeps_spots data_image M gyr w :
  nrows (spots (measure_spot_intensities data_image M gyr w).1) = nrows (spots w) ∧
  ∀ k, k ∉ box_columns →
       cols (spots (measure_spot_intensities data_image M gyr w).1) !! k
       = cols (spots w) !! k.
Proof.
  assert (same_spots (spots w) (spots (measure_spot_intensities data_image M gyr w).1))
    as [Hn Hcols].
  { unfold measure_spot_intensities, bind. simpl.
    destruct (decide _); [by split|apply fill_spots]. }
  split; [done|]. intros k Hk. by rewrite Hcols.
Qed.






Lemma list_prod_nil_r {A B} (l : list A) : list_prod l ([] : list B) = [].
Proof. induction l as [|a l IH]; [done|]. simpl. exact IH. Qed.

(** X10: a stack that has no channel label, or no round label, is not read at
    all: also with spots, the pass returns at once a tensor that has the spots
    as features and no cell. *)
Theorem no_frame_no_cell data_image M gyr w :
  axis_labels_CH data_image = [] ∨ axis_labels_ROUND data_image = [] →
  ∃ t, measure_spot_intensities data_image M gyr w = (w, Ok t) ∧
       features t = spots w ∧
       cells t = ∅.
Proof.
  intros Hempty.
  assert (list_prod (axis_labels_CH data_image) (axis_labels_ROUND data_image) = [])
    as Hprod.
  { destruct Hempty as [-> | ->]; [done|apply list_prod_nil_r]. }
  assert (cells (zeros (spots w) (axis_labels_ROUND data_image)
                   (axis_labels_CH data_image)) = ∅) as Hcells.
  { unfold zeros. simpl.
    destruct Hempty as [-> | ->]; [by rewrite list_prod_nil_r|by rewrite list_prod_nil_r]. }
  unfold measure_spot_intensities, bind. simpl. rewrite Hprod.
  destruct (decide _); unfold ret; simpl; eexists; (split; [reflexivity|]); done.
Qed.

Lemma no_frame_no_cell_witness :
  ∃ t, measure_spot_intensities
         {| axis_labels_CH := []; axis_labels_ROUND := [0];
            get_slice := λ _ _, Ok bright_pixel |} np_max false
         {| spots := one_spot 1; trace := [] |}
       = ({| spots := one_spot 1; trace := [] |}, Ok t) ∧
       features t = one_spot 1 ∧ cells t = ∅.
Proof.
  apply (no_frame_no_cell
           {| axis_labels_CH := []; axis_labels_ROUND := [0];
              get_slice := λ _ _, Ok bright_pixel |} np_max false
           {| spots := one_spot 1; trace := [] |}).
  left. reflexivity.
Defined.

(** ** concatenate_spot_attributes_to_intensities: what it accepts *)

Lemma drop_inv (df fc : DataFrame) :
  drop ["spot_id"; "intensity"] df = Ok fc →
  is_Some (cols df !! "spot_id") ∧ is_Some (cols df !! "intensity") ∧
  fc = {| nrows := nrows df;
          cols := delete "spot_id" (delete "intensity" (cols df)) |}.
Proof.
  unfold drop. rewrite !filter_cons, filter_nil.
  destruct (cols df !! "spot_id") as [c1|] eqn:H1;
    destruct (cols df !! "intensity") as [c2|] eqn:H2.
  - rewrite !decide_False by done. intros [= <-]. eauto.
  - rewrite decide_False by done. rewrite decide_True by done. done.
  - rewrite decide_True by done. done.
  - rewrite decide_True by done. done.
Qed.

Lemma assign_frames_inv (frames : list (DataFrame * frame_key))
    (st st' : nat * IntensityTable) :
  for_each frames assign_frame st = (st', Ok tt) →
  ∀ f, f ∈ frames → (0 < nrows f.1)%nat → is_Some (cols f.1 !! "intensity").
Proof.
  revert st. induction frames as [|g frames IH]; intros st Hrun f Hf Hn.
  - by apply elem_of_nil in Hf.
  - cbn [for_each] in Hrun. apply bind_Ok_inv in Hrun as (s1 & [] & Hg & Hrest).
    apply elem_of_cons in Hf as [->|Hf]; [|by eapply IH].
    unfold assign_frame in Hg.
    destruct (nrows g.1) as [|n]; [lia|].
    cbn [seq for_each] in Hg. apply bind_Ok_inv in Hg as (s2 & [] & Hrow & _).
    unfold assign_row, bind, get, lift, row_item in Hrow. simpl in Hrow.
    by destruct (cols g.1 !! "intensity").
Qed.

Lemma concatenate_accepts_only frames t :
  concatenate_spot_attributes_to_intensities frames = Ok t → mergeable frames.
Proof.
  unfold concatenate_spot_attributes_to_intensities.
  destruct frames as [|f fs]; [done|].
  change (map fst (f :: fs)) with (f.1 :: map fst fs). cbn [pd_concat rbind].
  destruct (drop _ _) as [fc|e] eqn:Hdrop; [|done]. cbn [rbind].
  destruct (for_each (f :: fs) assign_frame _) as [st [[]|e]] eqn:Hloop; [|done].
  intros _. apply drop_inv in Hdrop as (Hid & Hint & _).
  assert (∀ k, is_Some (cols (foldl concat2 f.1 (map fst fs)) !! k) →
          ∃ g, g ∈ f :: fs ∧ is_Some (cols g.1 !! k)) as Hsome.
  { intros k Hk. apply foldl_concat2_column in Hk as [Hk|(d & Hd & Hk)].
    - exists f. split; [apply elem_of_cons; by left|done].
    - apply list_elem_of_fmap in Hd as (g & -> & Hg).
      exists g. split; [apply elem_of_cons; by right|done]. }
  split; [done|]. split; [by apply Hsome|]. split; [by apply Hsome|].
  by eapply assign_frames_inv.
Qed.

(** The table of an accepted sequence, in full. *)
Lemma concatenate_run_full f fs :
  mergeable (f :: fs) →
  concatenate_spot_attributes_to_intensities (f :: fs)
  = Ok (set_cells
          (zeros {| nrows := nrows (foldl concat2 f.1 (map fst fs));
                    cols := delete "spot_id"
                              (delete "intensity"
                                 (cols (foldl concat2 f.1 (map fst fs)))) |}
                 (sorted_set (map (λ g, key_ROUND g.2) (f :: fs)))
                 (sorted_set (map (λ g, key_CH g.2) (f :: fs))))
          (insert_rows 0 (flat_map frame_rows (f :: fs))
             (cells (zeros {| nrows := nrows (foldl concat2 f.1 (map fst fs));
                              cols := delete "spot_id"
                                        (delete "intensity"
                                           (cols (foldl concat2 f.1 (map fst fs)))) |}
                           (sorted_set (map (λ g, key_ROUND g.2) (f :: fs)))
                           (sorted_set (map (λ g, key_CH g.2) (f :: fs))))))).
Proof.
  intros (Hne & (f1 & Hf1 & Hid) & (f2 & Hf2 & Hint) & Hcol).
  assert (∀ k g, g ∈ f :: fs → is_Some (cols g.1 !! k) →
          is_Some (cols (foldl concat2 f.1 (map fst fs)) !! k)) as Hall.
  { intros k g Hg Hk. apply foldl_concat2_column.
    apply elem_of_cons in Hg as [->|Hg]; [by left|].
    right. exists g.1. split; [|done]. apply list_elem_of_fmap. by exists g. }
  destruct (drop_present (foldl concat2 f.1 (map fst fs))) as (fc & Hdrop & Hn).
  { by apply (Hall _ f1). }
  { by apply (Hall _ f2). }
  pose proof (drop_inv _ _ Hdrop) as (_ & _ & Hfc).
  rewrite Hfc in Hdrop.
  unfold concatenate_spot_attributes_to_intensities.
  change (map fst (f :: fs)) with (f.1 :: map fst fs).
  cbn [pd_concat rbind]. rewrite Hdrop. cbn [rbind].
  rewrite assign_frames_run.
  - done.
  - done.
  - intros g Hg. unfold zeros. cbn [ch_index round_index].
    split; apply sorted_set_elem_of, list_elem_of_fmap; by exists g.
  - unfold sizes_features. simpl.
    rewrite foldl_concat2_nrows, total_rows_cons, total_rows_sum. done.
Qed.

(** X11: the merge returns a table exactly for the sequences that have a
    frame, in which some frame has a spot_id column and some frame an
    intensity column (the columns it drops), and in which every frame with a
    spot row has an intensity column; for any other sequence it raises. *)
Theorem merge_accepts_exactly frames :
  (∃ t, concatenate_spot_attributes_to_intensities frames = Ok t) ↔ mergeable frames.
Proof.
  split.
  - intros [t Ht]. by apply (concatenate_accepts_only frames t).
  - intros Hm. destruct (concatenate_run frames Hm) as (fc & _ & Hrun). by eexists.
Qed.

Lemma merge_accepts_exactly_witness :
  ¬ ∃ t, concatenate_spot_attributes_to_intensities
           [(detected 9, mkKey 0 0); (one_spot 1, mkKey 1 0)] = Ok t.
Proof.
  intros Hok.
  apply (merge_accepts_exactly [(detected 9, mkKey 0 0); (one_spot 1, mkKey 1 0)])
    in Hok as (_ & _ & _ & Hint).
  destruct (Hint (one_spot 1, mkKey 1 0)) as [c Hc].
  - apply elem_of_cons. right. apply elem_of_cons. by left.
  - simpl. lia.
  - discriminate Hc.
Defined.

(** ** concatenate_spot_attributes_to_intensities: the per-feature table *)

(** X12: the per-feature table of the merged tensor has neither a spot_id nor
    an intensity column, and has every other column that some frame has, and
    no further one. *)
Theorem merged_features_columns frames :
  mergeable frames →
  ∃ t, concatenate_spot_attributes_to_intensities frames = Ok t ∧
       cols (features t) !! "spot_id" = None ∧
       cols (features t) !! "intensity" = None ∧
       ∀ k, k ≠ "spot_id" → k ≠ "intensity" →
            (is_Some (cols (features t) !! k)
             ↔ ∃ f, f ∈ frames ∧ is_Some (cols f.1 !! k)).
Proof.
  intros Hm. destruct frames as [|f fs]; [by destruct Hm|].
  rewrite (concatenate_run_full f fs Hm). eexists. split; [reflexivity|].
  cbn [set_cells zeros features cols].
  split; [by rewrite lookup_delete_eq|].
  split; [by rewrite lookup_delete_ne, lookup_delete_eq|].
  intros k Hid Hint. rewrite !lookup_delete_ne by done.
  rewrite foldl_concat2_column. split.
  - intros [Hk|(d & Hd & Hk)].
    + exists f. split; [apply elem_of_cons; by left|done].
    + apply list_elem_of_fmap in Hd as (g & -> & Hg).
      exists g. split; [apply elem_of_cons; by right|done].
  - intros (g & Hg & Hk). apply elem_of_cons in Hg as [->|Hg]; [by left|].
    right. exists g.1. split; [|done]. apply list_elem_of_fmap. by exists g.
Qed.

Lemma merged_features_columns_witness :
  ∃ t, concatenate_spot_attributes_to_intensities
         [(detected 9, mkKey 0 0); (detected_nothing, mkKey 1 0)] = Ok t ∧
       cols (features t) !! "intensity" = None ∧
       is_Some (cols (features t) !! "radius").
Proof.
  destruct (merged_features_columns
              [(detected 9, mkKey 0 0); (detected_nothing, mkKey 1 0)])
    as (t & Hrun & _ & Hint & Hcols).
  { apply detected_frames_mergeable; [done|].
    constructor; [right; by eexists|]. constructor; [by left|constructor]. }
  exists t. split; [exact Hrun|]. split; [exact Hint|].
  apply Hcols; [done|done|].
  exists (detected 9, mkKey 0 0). split; [apply elem_of_cons; by left|by eexists].
Defined.

Lemma to_floats_col_append (n : nat) (a b : column) (i : nat) :
  to_floats (col_append n a b) i
  = if (i <? n)%nat then to_floats a i else to_floats b (i - n)%nat.
Proof.
  destruct a, b; simpl; by destruct (i <? n)%nat.
Qed.

(** Concatenation keeps the rows of the first table in place ... *)
Lemma foldl_concat2_head (acc : DataFrame) (fs : list DataFrame) (k : string)
    (col : column) (i : nat) :
  cols acc !! k = Some col → (i < nrows acc)%nat →
  ∃ call, cols (foldl concat2 acc fs) !! k = Some call ∧
          to_floats call i = to_floats col i.
Proof.
  revert acc col. induction fs as [|g fs IH]; intros acc col Hcol Hi; simpl.
  - by exists col.
  - destruct (IH (concat2 acc g)
                (col_append (nrows acc) col (default nan_col (cols g !! k))))
      as (call & Hcall & Hval).
    + rewrite concat2_lookup, Hcol. by destruct (cols g !! k).
    + simpl. lia.
    + exists call. split; [done|]. rewrite Hval, to_floats_col_append.
      by rewrite (proj2 (Nat.ltb_lt _ _) Hi).
Qed.

(** ... and puts the rows of the table at position [j] below the rows of the
    tables before it. *)
Lemma foldl_concat2_row (acc : DataFrame) (fs : list DataFrame) (j : nat)
    (g : DataFrame) (k : string) (col : column) (i : nat) :
  fs !! j = Some g → cols g !! k = Some col → (i < nrows g)%nat →
  ∃ call, cols (foldl concat2 acc fs) !! k = Some call ∧
          to_floats call (nrows acc + sum_list (map nrows (take j fs)) + i)%nat
          = to_floats col i.
Proof.
  revert acc j. induction fs as [|h fs IH]; intros acc j Hj Hcol Hi; [done|].
  destruct j as [|j]; simpl in Hj.
  - injection Hj as ->. simpl.
    destruct (foldl_concat2_head (concat2 acc g) fs k
                (col_append (nrows acc) (default nan_col (cols acc !! k)) col)
                (nrows acc + i)) as (call & Hcall & Hval).
    + rewrite concat2_lookup, Hcol. by destruct (cols acc !! k).
    + simpl. lia.
    + exists call. split; [done|].
      replace (nrows acc + 0 + i)%nat with (nrows acc + i)%nat by lia.
      rewrite Hval, to_floats_col_append.
      rewrite (proj2 (Nat.ltb_ge _ _)) by lia. f_equal. lia.
  - destruct (IH (concat2 acc h) j Hj Hcol Hi) as (call & Hcall & Hval).
    exists call. split; [done|]. simpl in *. rewrite <- Hval. f_equal. lia.
Qed.

(** X13: the per-feature table carries the rows of the frames in
    concatenation order: for a column other than spot_id and intensity, the
    entry of feature offset(j) + i is the entry of row i of frame j. *)
Theorem merged_features_rows frames :
  mergeable frames →
  ∃ t, concatenate_spot_attributes_to_intensities frames = Ok t ∧
       ∀ j f i k col,
         frames !! j = Some f → (i < nrows f.1)%nat →
         k ≠ "spot_id" → k ≠ "intensity" → cols f.1 !! k = Some col →
         ∃ call, cols (features t) !! k = Some call ∧
                 to_floats call (offset frames j + i)%nat = to_floats col i.
Proof.
  intros Hm. destruct frames as [|f fs]; [by destruct Hm|].
  rewrite (concatenate_run_full f fs Hm). eexists. split; [reflexivity|].
  intros j g i k col Hj Hi Hid Hint Hcol.
  cbn [set_cells zeros features cols]. rewrite !lookup_delete_ne by done.
  destruct j as [|j]; simpl in Hj.
  - injection Hj as <-.
    destruct (foldl_concat2_head f.1 (map fst fs) k col i Hcol Hi) as (call & ? & ?).
    exists call. split; [done|]. unfold offset. simpl. done.
  - destruct (foldl_concat2_row f.1 (map fst fs) j g.1 k col i) as (call & Hcall & Hval).
    + by rewrite list_lookup_fmap, Hj.
    + done.
    + done.
    + exists call. split; [done|]. rewrite <- Hval. f_equal.
      unfold offset. cbn [take]. rewrite total_rows_cons, total_rows_sum.
      by rewrite <- fmap_take.
Qed.

Lemma merged_features_rows_witness :
  ∃ t, concatenate_spot_attributes_to_intensities
         [(detected_nothing, mkKey 1 0); (detected 9, mkKey 0 0)] = Ok t ∧
       ∃ call, cols (features t) !! "y" = Some call ∧
               to_floats call 0%nat = float_of_int 2.
Proof.
  destruct (merged_features_rows
              [(detected_nothing, mkKey 1 0); (detected 9, mkKey 0 0)])
    as (t & Hrun & Hrows).
  { apply detected_frames_mergeable; [done|].
    constructor; [by left|]. constructor; [right; by eexists|constructor]. }
  exists t. split; [exact Hrun|].
  apply (Hrows 1%nat (detected 9, mkKey 0 0) 0%nat "y" (IntCol (λ _, 2)));
    [reflexivity|simpl; lia|done|done|reflexivity].
Defined.

(** ** concatenate_spot_attributes_to_intensities: the tensor is dense *)

Lemma all_rows_keys frames (c r : Z) (v : Number) :
  (c, r, v) ∈ flat_map frame_rows frames →
  ∃ f, f ∈ frames ∧ key_CH f.2 = c ∧ key_ROUND f.2 = r.
Proof.
  intros Hin. apply list_elem_of_In, in_flat_map in Hin as (f & Hf & Hin).
  apply list_elem_of_In in Hf, Hin. unfold frame_rows in Hin.
  apply list_elem_of_fmap in Hin as (j & [= -> -> ->] & _). by exists f.
Qed.

(** X14: the merged tensor is dense: it has a cell for every feature below
    the total number of rows, every channel of its channel axis and every
    round of its round axis, and no other cell. *)
Theorem merged_tensor_is_dense frames :
  mergeable frames →
  ∃ t, concatenate_spot_attributes_to_intensities frames = Ok t ∧
       ∀ i c r, is_Some (cells t !! (i, c, r))
                ↔ (i < total_rows frames)%nat ∧ c ∈ ch_index t ∧ r ∈ round_index t.
Proof.
  intros Hm. destruct (concatenate_run frames Hm) as (fc & Hn & Hrun).
  eexists. split; [exact Hrun|]. intros i c r.
  unfold set_cells. cbn [cells ch_index round_index].
  rewrite insert_rows_lookup, decide_True by lia. rewrite Nat.sub_0_r, zeros_lookup, Hn.
  unfold zeros. cbn [ch_index round_index].
  destruct (flat_map frame_rows frames !! i) as [[[c' r'] v]|] eqn:Hrow.
  - pose proof (lookup_lt_Some _ _ _ Hrow) as Hi. rewrite length_all_rows in Hi.
    apply list_elem_of_lookup_2, all_rows_keys in Hrow as (f & Hf & <- & <-).
    destruct (decide (c = key_CH f.2 ∧ r = key_ROUND f.2)) as [[-> ->]|Hne].
    + split; [|by eexists]. intros _. split; [done|].
      split; apply sorted_set_elem_of, list_elem_of_fmap; by exists f.
    + destruct (decide _) as [Hd|Hd]; (split; [intros Hs|intros Hp]);
        first [done | by eexists | by destruct Hs].
  - destruct (decide _) as [Hd|Hd]; (split; [intros Hs|intros Hp]);
      first [done | by eexists | by destruct Hs].
Qed.

Lemma merged_tensor_is_dense_witness :
  ∃ t, concatenate_spot_attributes_to_intensities
         [(detected 9, mkKey 0 0); (detected 5, mkKey 1 0)] = Ok t ∧
       is_Some (cells t !! (1%nat, 0, 0)) ∧
       ¬ is_Some (cells t !! (2%nat, 0, 0)).
Proof.
  destruct (merged_tensor_is_dense [(detected 9, mkKey 0 0); (detected 5, mkKey 1 0)])
    as (t & Hrun & Hcells).
  { apply detected_frames_mergeable; [done|].
    constructor; [right; by eexists|]. constructor; [right; by eexists|constructor]. }
  exists t. split; [exact Hrun|]. split.
  - apply Hcells. injection Hrun as <-. split; [vm_compute; lia|].
    split; simpl; repeat constructor.
  - intros Hc. apply Hcells in Hc as [Hi _]. vm_compute in Hi. lia.
Defined.

(** ** detect_spots: failures, no detection, and the whole run *)

(** X15: detect_spots catches nothing. An exception of the max projection,
    of the spot finder or of the grouped map is the exception of the run, and
    so is the ValueError of the merge when the grouped map yields no frame;
    the run ends there: no slice is read and the transfer of physical
    coordinates is not invoked. *)
Theorem detect_spots_propagates_failures
    find xarray max_proj squeezed_numpy transform transfer
    data_stack kwargs M gyr n_processes (tr : list event) :
  let kw := default ∅ kwargs in
  let run := λ reference axes,
    detect_spots find xarray max_proj squeezed_numpy transform transfer
      data_stack kwargs reference axes M gyr n_processes tr in
  (∀ reference axes e,
     max_proj reference axes = Err e →
     run (Some reference) (Some axes) = (tr ++ [MaxProj], Err e)) ∧
  (∀ reference axes image e,
     reference_array xarray max_proj squeezed_numpy reference axes = Ok image →
     find image kw = Err e →
     run (Some reference) axes
     = (tr ++ match axes with Some _ => [MaxProj] | None => [] end ++ [FindSpots], Err e)) ∧
  (∀ axes e,
     transform data_stack (λ image, find image kw) [ROUND; CH] n_processes = Err e →
     run None axes = (tr ++ [Transform], Err e)) ∧
  (∀ axes,
     transform data_stack (λ image, find image kw) [ROUND; CH] n_processes = Ok [] →
     run None axes = (tr ++ [Transform], Err ValueError)).
Proof.
  intros kw run. subst run. cbv beta.
  unfold detect_spots, reference_array. fold kw.
  unfold bind, log, modify, lift, ret, with_spots.
  split; [|split; [|split]].
  - intros reference axes e He. simpl. by rewrite He.
  - intros reference [axes|] image e Himage Hfind; simpl in *.
    + destruct (max_proj reference axes) as [r|]; [|done]. simpl in *.
      rewrite Himage, Hfind. by rewrite <- app_assoc.
    + injection Himage as <-. by rewrite Hfind.
  - intros axes e He. simpl. by rewrite He.
  - intros axes He. simpl. by rewrite He.
Qed.

(** A finder that raises: the run raises the same, right after the call. *)
Lemma detect_spots_propagates_failures_witness :
  detect_spots (λ _ _, Err (Raised 7)) (λ _, bright_pixel) (λ s _, Ok s)
    (λ _ _, Ok bright_pixel) (λ _ _ _ _, Ok []) (λ _ t, Ok t)
    two_channels None (Some two_channels) None np_max false None []
  = ([FindSpots], Err (Raised 7)).
Proof.
  destruct (detect_spots_propagates_failures (λ _ _, Err (Raised 7)) (λ _, bright_pixel)
              (λ s _, Ok s) (λ _ _, Ok bright_pixel) (λ _ _ _ _, Ok []) (λ _ t, Ok t)
              two_channels None np_max false None []) as (_ & Hfind & _).
  apply (Hfind two_channels None bright_pixel (Raised 7) eq_refl eq_refl).
Defined.

(** X16: when the spot finder finds no spot on the reference, the run reads
    no slice of the data stack: it hands the tensor without features, which
    has the labels of the data stack as its axes, to the transfer of physical
    coordinates and returns what that gives. *)
Theorem detect_spots_without_detection
    find xarray max_proj squeezed_numpy transform transfer
    data_stack kwargs M gyr n_processes (tr : list event)
    reference axes image found :
  reference_array xarray max_proj squeezed_numpy reference axes = Ok image →
  find image (default ∅ kwargs) = Ok found →
  nrows found = 0%nat →
  detect_spots find xarray max_proj squeezed_numpy transform transfer
    data_stack kwargs (Some reference) axes M gyr n_processes tr
  = (tr ++ match axes with Some _ => [MaxProj] | None => [] end
        ++ [FindSpots; TransferCoords],
     transfer data_stack
       (zeros found (axis_labels_ROUND data_stack) (axis_labels_CH data_stack))).
Proof.
  intros Himage Hfind Hn.
  unfold detect_spots, reference_array in *.
  unfold bind, log, modify, lift, ret, with_spots, measure_spot_intensities, bind.
  destruct axes as [axes|]; simpl in *.
  - destruct (max_proj reference axes) as [r|]; [|done]. simpl in *.
    rewrite Himage, Hfind. simpl.
    destruct (decide _) as [_|Hne]; [|by unfold sizes_features in Hne].
    unfold ret. simpl. by rewrite <- !app_assoc.
  - injection Himage as <-. rewrite Hfind. simpl.
    destruct (decide _) as [_|Hne]; [|by unfold sizes_features in Hne].
    unfold ret. simpl. by rewrite <- !app_assoc.
Qed.

Lemma detect_spots_without_detection_witness :
  detect_spots (λ _ _, Ok no_spots) (λ _, bright_pixel) (λ s _, Ok s)
    (λ _ _, Ok bright_pixel) (λ _ _ _ _, Ok []) (λ _ t, Ok t)
    unreadable_stack None (Some two_channels) None np_max false None []
  = ([FindSpots; TransferCoords], Ok (zeros no_spots [0] [0; 1])).
Proof.
  apply (detect_spots_without_detection (λ _ _, Ok no_spots) (λ _, bright_pixel)
           (λ s _, Ok s) (λ _ _, Ok bright_pixel) (λ _ _ _ _, Ok []) (λ _ t, Ok t)
           unreadable_stack None np_max false None [] two_channels None
           bright_pixel no_spots eq_refl eq_refl eq_refl).
Defined.



(** ** concatenate_spot_attributes_to_intensities: the axes are canonical *)

Lemma ascending_unique (l1 l2 : list Z) :
  StronglySorted Z.lt l1 → StronglySorted Z.lt l2 →
  (∀ x, x ∈ l1 ↔ x ∈ l2) → l1 = l2.
Proof.
  intros H1. revert l2. induction H1 as [|a l1 Hl1 IH Ha]; intros l2 H2 Heq.
  - destruct l2 as [|b l2]; [done|].
    exfalso. apply (elem_of_nil b). apply Heq, elem_of_cons. by left.
  - destruct H2 as [|b l2 Hl2 Hb].
    { exfalso. apply (elem_of_nil a). apply Heq, elem_of_cons. by left. }
    rewrite Forall_forall in Ha, Hb.
    assert (a = b) as <-.
    { assert (a ∈ b :: l2) as Hab by (apply Heq, elem_of_cons; by left).
      assert (b ∈ a :: l1) as Hba by (apply Heq, elem_of_cons; by left).
      apply elem_of_cons in Hab as [?|Hab]; [done|].
      apply elem_of_cons in Hba as [?|Hba]; [done|].
      specialize (Ha b Hba). specialize (Hb a Hab). lia. }
    f_equal. apply IH; [done|]. intros x. split; intros Hx.
    + assert (x ∈ a :: l2) as Hx' by (apply Heq, elem_of_cons; by right).
      apply elem_of_cons in Hx' as [->|?]; [|done].
      specialize (Ha a Hx). lia.
    + assert (x ∈ a :: l1) as Hx' by (apply Heq, elem_of_cons; by right).
      apply elem_of_cons in Hx' as [->|?]; [|done].
      specialize (Hb a Hx). lia.
Qed.

Lemma sorted_set_same_elements (xs ys : list Z) :
  (∀ x, x ∈ xs ↔ x ∈ ys) → sorted_set xs = sorted_set ys.
Proof.
  intros Heq. apply ascending_unique; try apply sorted_set_ascending.
  intros x. by rewrite !sorted_set_elem_of.
Qed.

Lemma total_rows_Permutation frames frames' :
  frames ≡ₚ frames' → total_rows frames = total_rows frames'.
Proof.
  induction 1 as [|f l l' _ IH|f g l|l l' l'' _ IH1 _ IH2].
  - done.
  - rewrite !total_rows_cons. by rewrite IH.
  - rewrite !total_rows_cons. lia.
  - congruence.
Qed.

Lemma mergeable_Permutation frames frames' :
  frames ≡ₚ frames' → mergeable frames → mergeable frames'.
Proof.
  intros Hp (Hne & (f1 & Hf1 & H1) & (f2 & Hf2 & H2) & Hall).
  split; [|split; [|split]].
  - intros ->. by apply Permutation_nil_r in Hp.
  - exists f1. by rewrite <- Hp.
  - exists f2. by rewrite <- Hp.
  - intros f Hf. apply Hall. by rewrite Hp.
Qed.

(** X18: the axes and the size of the merged tensor do not depend on the
    order in which the frames arrive: two sequences with the same frames give
    tables with the same channel axis, the same round axis and the same
    number of features. *)
Theorem merged_axes_do_not_depend_on_frame_order frames frames' :
  frames ≡ₚ frames' →
  mergeable frames →
  ∃ t t',
    concatenate_spot_attributes_to_intensities frames = Ok t ∧
    concatenate_spot_attributes_to_intensities frames' = Ok t' ∧
    ch_index t = ch_index t' ∧
    round_index t = round_index t' ∧
    sizes_features t = sizes_features t'.
Proof.
  intros Hp Hm.
  pose proof (mergeable_Permutation _ _ Hp Hm) as Hm'.
  destruct (concatenate_run frames Hm) as (fc & Hn & Hrun).
  destruct (concatenate_run frames' Hm') as (fc' & Hn' & Hrun').
  eexists _, _. split; [exact Hrun|]. split; [exact Hrun'|].
  unfold set_cells, zeros, sizes_features. simpl.
  split; [|split].
  - apply sorted_set_same_elements. intros c. rewrite !list_elem_of_fmap.
    split; intros (f & -> & Hf); exists f; (split; [done|]);
      [by rewrite <- Hp|by rewrite Hp].
  - apply sorted_set_same_elements. intros r. rewrite !list_elem_of_fmap.
    split; intros (f & -> & Hf); exists f; (split; [done|]);
      [by rewrite <- Hp|by rewrite Hp].
  - rewrite Hn, Hn'. by apply total_rows_Permutation.
Qed.

Lemma merged_axes_do_not_depend_on_frame_order_witness :
  ∃ t t',
    concatenate_spot_attributes_to_intensities
      [(detected 9, mkKey 1 0); (detected 5, mkKey 0 0)] = Ok t ∧
    concatenate_spot_attributes_to_intensities
      [(detected 5, mkKey 0 0); (detected 9, mkKey 1 0)] = Ok t' ∧
    ch_index t = ch_index t' ∧ round_index t = round_index t' ∧
    sizes_features t = sizes_features t'.
Proof.
  apply (merged_axes_do_not_depend_on_frame_order
           [(detected 9, mkKey 1 0); (detected 5, mkKey 0 0)]
           [(detected 5, mkKey 0 0); (detected 9, mkKey 1 0)]).
  - apply perm_swap.
  - apply detected_frames_mergeable; [done|].
    constructor; [right; by eexists|]. constructor; [right; by eexists|constructor].
Defined.
